(** * Funding-transaction fetcher: a shallow embedding and its properties

    Source: backend/src/tasks/lightning/sync-tasks/funding-tx-fetcher.ts
    (class [FundingTxFetcher]).

    The class is a mutable singleton that talks to a bitcoin RPC client, to
    the file system and to the wall clock.  It is embedded as explicit state
    passing: a computation takes the current [World] (the fields of the object
    plus what the outside can observe of it) and returns a result or a thrown
    exception, together with the world at that point.

    What the embedding keeps and what it leaves out:
    - every [await] is a plain call: one method runs from start to end before
      the next one starts;
    - the calls of [logger] change nothing that the class reads and are left
      out;
    - [fsPromises.writeFile] is not awaited by the source; the write is
      recorded, with the text it was given, at the point of the call;
    - the clock is an oracle that is read each time the source evaluates
      [new Date()], and the floating-point rounding of a difference of two
      readings is a parameter;
    - a look-up in an object or in an array is a look-up among its own keys:
      the members that every JavaScript object or array inherits
      ([constructor], [toString], [length], ...) are left out.  The source
      behaves so for every id whose parts are written in decimal digits or
      are missing; a statement that depends on the look-up in the block cache
      for other ids assumes a decimal first part;
    - the cache file holds the JSON text of a cache or cannot be parsed: a
      file that holds other JSON ([null], a number) is left out;
    - integers are exact: block heights beyond 2^53, which [parseInt] would
      round, are left out. *)

From Stdlib Require Import ZArith NArith Ascii String DecimalString DecimalN DecimalPos.
From stdpp Require Import gmap strings list sorting.

Local Open Scope string_scope.

(** ** The JavaScript primitives the class relies on *)

Module Js.

(** [s.split(sep)] for a one-character separator. *)
Fixpoint split (sep : ascii) (s : string) : list string :=
  match s with
  | EmptyString => [EmptyString]
  | String c s' =>
      if Ascii.eqb c sep then EmptyString :: split sep s'
      else match split sep s' with
           | p :: ps => String c p :: ps
           | [] => [String c EmptyString]
           end
  end.

Definition is_digit (c : ascii) : bool :=
  (48 <=? nat_of_ascii c)%nat && (nat_of_ascii c <=? 57)%nat.

Definition is_space (c : ascii) : bool :=
  let n := nat_of_ascii c in
  (n =? 32)%nat || ((9 <=? n)%nat && (n <=? 13)%nat).

Fixpoint all_digits (s : string) : bool :=
  match s with
  | EmptyString => true
  | String c s' => is_digit c && all_digits s'
  end.

Fixpoint digits_prefix (s : string) : string :=
  match s with
  | EmptyString => EmptyString
  | String c s' => if is_digit c then String c (digits_prefix s') else EmptyString
  end.

Fixpoint skip_spaces (s : string) : string :=
  match s with
  | EmptyString => EmptyString
  | String c s' => if is_space c then skip_spaces s' else s
  end.

(** [parseInt(s, 10)]: leading white space, an optional sign, then the
    longest run of decimal digits; [None] stands for [NaN]. *)
Definition parseInt (s : string) : option Z :=
  let s1 := skip_spaces s in
  let '(neg, s2) :=
    match s1 with
    | String "-"%char r => (true, r)
    | String "+"%char r => (false, r)
    | _ => (false, s1)
    end in
  match NilZero.uint_of_string (digits_prefix s2) with
  | Some d => let n := Z.of_N (N.of_uint d) in Some (if neg : bool then (- n)%Z else n)
  | None => None
  end.

(** [parseInt(x, 10)] where [x] may be [undefined]: the argument is first
    turned into the string ["undefined"], which has no digits. *)
Definition parseInt_opt (x : option string) : option Z :=
  match x with
  | Some s => parseInt s
  | None => None
  end.

(** [String(n)] for a non-negative integer [n]. *)
Definition show (n : N) : string := NilZero.string_of_uint (N.to_uint n).

(** A property key names the integer [n] exactly when it is the canonical
    decimal text of [n]: ["7"] does, ["07"] and ["7 "] do not. *)
Definition index_of_key (k : string) : option N :=
  match NilZero.uint_of_string k with
  | Some d => let n := N.of_uint d in
              if String.eqb (show n) k then Some n else None
  | None => None
  end.

(** [arr[k]] for an array [arr] and a key [k] that is a string or
    [undefined]; [None] is [undefined]. *)
Definition array_get {A} (arr : list A) (k : option string) : option A :=
  match k with
  | Some s => match index_of_key s with
              | Some i => arr !! N.to_nat i
              | None => None
              end
  | None => None
  end.

(** [a < b] on numbers where [b] may be [NaN] (every comparison with [NaN]
    is false). *)
Definition lt_nan (a : Z) (b : option Z) : bool :=
  match b with
  | Some b => (a <? b)%Z
  | None => false
  end.

(** [s] has no occurrence of [sep]. *)
Fixpoint no_sep (sep : ascii) (s : string) : bool :=
  match s with
  | EmptyString => true
  | String c s' => negb (Ascii.eqb c sep) && no_sep sep s'
  end.

End Js.

(** ** Computations: state and exceptions *)

(** What a computation can throw: a failure reported by the RPC client, or
    the [TypeError] raised when a property of [undefined]/[null] is read. *)
Inductive Exn : Type :=
  | RpcError (msg : string)
  | TypeError.

Inductive Result (A : Type) : Type :=
  | Ok (a : A)
  | Throw (e : Exn).
Arguments Ok {A} a.
Arguments Throw {A} e.

Definition M (W A : Type) : Type := W → Result A * W.

Definition ret {W A} (a : A) : M W A := λ w, (Ok a, w).

Definition bind {W A B} (m : M W A) (k : A → M W B) : M W B :=
  λ w, match m w with
       | (Ok a, w') => k a w'
       | (Throw e, w') => (Throw e, w')
       end.

Definition throw {W A} (e : Exn) : M W A := λ w, (Throw e, w).

(** [try { body } catch (e) { handler }]: what [body] did to the world before
    it threw stays done. *)
Definition try_catch {W A} (body : M W A) (handler : Exn → M W A) : M W A :=
  λ w, match body w with
       | (Ok a, w') => (Ok a, w')
       | (Throw e, w') => handler e w'
       end.

Definition gets {W A} (f : W → A) : M W A := λ w, (Ok (f w), w).

Definition modify {W} (f : W → W) : M W unit := λ w, (Ok tt, f w).

Notation "'let!' x ':=' m 'in' k" := (bind m (λ x, k))
  (at level 10, x name, m at level 100, k at level 200,
   format "'[v' 'let!'  x  ':='  m  'in' '/' k ']'").
Notation "'run!' m 'in' k" := (bind m (λ _, k))
  (at level 10, m at level 100, k at level 200,
   format "'[v' 'run!'  m  'in' '/' k ']'").

(** ** Data model *)

Definition BLOCKS_CACHE_MAX_SIZE : nat := 100.
Definition MY_LIGHTNING_WALLET_ADDRESS : string :=
  "bc1qpqlsehzrjmxhutxmlwt6tdjkwafvcgugpv5375".

Section Model.

(** [Num] stands for the JavaScript numbers that carry amounts, [RawTx] for
    what [getRawTransaction] answers and [AddrTxs] for what [getAddressTxs]
    answers; the class never looks inside the last two. *)
Context {Num RawTx AddrTxs : Type}.

(** One output of a decoded transaction: [out.value] and
    [out.scriptPubKey.addresses], each possibly [undefined]. *)
Record Vout : Type :=
  { vout_value : option Num; vout_addresses : option (list string) }.

(** A decoded transaction; [tx.vout] may be [undefined]. *)
Record DecodedTx : Type := { vout : option (list Vout) }.

(** A block as [getBlock(hash, 1)] answers it: the transactions are ids. *)
Record Block : Type := { height : N; time : Z; tx : list string }.

Record MempoolDetails : Type := { fee : Num; vsize : Num }.

(** [{timestamp, txid, value}]; [txid] is [block.tx[txIdx]], which is
    [undefined] when the block has no such index. *)
Record FundingTxRecord : Type :=
  { timestamp : Z; txid : option string; value : Num }.

(** [fundingTxCache] holds funding records under channel ids and the confirmed
    history of the watched address under the address itself.  Both are
    objects, so the test [if (this.fundingTxCache[channelId])] is a test of
    presence. *)
Inductive CacheEntry : Type :=
  | FundingTx (r : FundingTxRecord)
  | ConfirmedTxs (txs : AddrTxs).

Record WalletTx : Type :=
  { wtx_txid : string; amount : Num; wtx_fee : Num; wtx_vsize : Num }.

(** The file [CACHE_FILE_NAME]: the JSON text of a cache, or bytes that
    [JSON.parse] rejects. *)
Inductive FileContent : Type :=
  | Json (cache : gmap string CacheEntry)
  | Corrupt.

Inductive RpcCall : Type :=
  | GetAddressTxs (address : string)
  | GetRawMempool (verbose : bool)
  | GetRawTransaction (id : option string) (verbose : option bool)
  | DecodeRawTransaction (raw : RawTx)
  | GetBlockHash (h : option Z)
  | GetBlock (hash : string) (verbosity : Z).

(** The answers of the RPC collaborator ([bitcoinClient]). *)
Record Rpc : Type := {
  getAddressTxs : string → Result AddrTxs;
  getRawMempool : bool → Result (list (string * MempoolDetails));
  getRawTransaction : option string → option bool → Result RawTx;
  decodeRawTransaction : RawTx → Result (option DecodedTx);
  getBlockHash : option Z → Result string;
  getBlock : string → Z → Result Block
}.

(** Everything the class takes from outside its file:
    - [channelIntegerIdToShortId], the helper of [Common] that normalises a
      channel id;
    - the RPC client;
    - the clock: [clock k] is what the [k]-th evaluation of
      [new Date().getTime()] gives, in milliseconds, and [roundedSeconds t1 t0]
      is [Math.round(t1 / 1000 - t0 / 1000)] as floating point computes it;
    - [config.LIGHTNING.LOGGER_UPDATE_INTERVAL];
    - [0], [NaN] and [+] on amounts. *)
Record Env : Type := {
  channelIntegerIdToShortId : string → string;
  rpc : Rpc;
  clock : nat → Z;
  roundedSeconds : Z → Z → Z;
  LOGGER_UPDATE_INTERVAL : Z;
  num_zero : Num;
  num_nan : Num;
  num_add : Num → Num → Num
}.

(** The fields of the object, then what the outside observes of it: the cache
    file, the RPC calls made so far (latest last), every [writeFile] of the
    cache (latest last) and how many times the clock was read.
    [blocksCache] is keyed by block height: its property keys are always
    [String(block.height)]. *)
Record World : Type := {
  running : bool;
  blocksCache : gmap N Block;
  channelNewlyProcessed : nat;
  fundingTxCache : gmap string CacheEntry;
  walletMempoolTxs : list WalletTx;
  cacheFile : option FileContent;
  rpcLog : list RpcCall;
  flushes : list (gmap string CacheEntry);
  clockReads : nat
}.

Definition set_running (b : bool) (w : World) : World :=
  {| running := b; blocksCache := blocksCache w;
     channelNewlyProcessed := channelNewlyProcessed w;
     fundingTxCache := fundingTxCache w; walletMempoolTxs := walletMempoolTxs w;
     cacheFile := cacheFile w; rpcLog := rpcLog w; flushes := flushes w;
     clockReads := clockReads w |}.

Definition set_blocksCache (c : gmap N Block) (w : World) : World :=
  {| running := running w; blocksCache := c;
     channelNewlyProcessed := channelNewlyProcessed w;
     fundingTxCache := fundingTxCache w; walletMempoolTxs := walletMempoolTxs w;
     cacheFile := cacheFile w; rpcLog := rpcLog w; flushes := flushes w;
     clockReads := clockReads w |}.

Definition set_channelNewlyProcessed (n : nat) (w : World) : World :=
  {| running := running w; blocksCache := blocksCache w;
     channelNewlyProcessed := n;
     fundingTxCache := fundingTxCache w; walletMempoolTxs := walletMempoolTxs w;
     cacheFile := cacheFile w; rpcLog := rpcLog w; flushes := flushes w;
     clockReads := clockReads w |}.

Definition set_fundingTxCache (c : gmap string CacheEntry) (w : World) : World :=
  {| running := running w; blocksCache := blocksCache w;
     channelNewlyProcessed := channelNewlyProcessed w;
     fundingTxCache := c; walletMempoolTxs := walletMempoolTxs w;
     cacheFile := cacheFile w; rpcLog := rpcLog w; flushes := flushes w;
     clockReads := clockReads w |}.

Definition set_walletMempoolTxs (l : list WalletTx) (w : World) : World :=
  {| running := running w; blocksCache := blocksCache w;
     channelNewlyProcessed := channelNewlyProcessed w;
     fundingTxCache := fundingTxCache w; walletMempoolTxs := l;
     cacheFile := cacheFile w; rpcLog := rpcLog w; flushes := flushes w;
     clockReads := clockReads w |}.

Definition log_rpc (c : RpcCall) (w : World) : World :=
  {| running := running w; blocksCache := blocksCache w;
     channelNewlyProcessed := channelNewlyProcessed w;
     fundingTxCache := fundingTxCache w; walletMempoolTxs := walletMempoolTxs w;
     cacheFile := cacheFile w; rpcLog := rpcLog w ++ [c]; flushes := flushes w;
     clockReads := clockReads w |}.

(** [fsPromises.writeFile(CACHE_FILE_NAME, JSON.stringify(this.fundingTxCache))]:
    the text is built from the cache as it is at the call. *)
Definition write_cacheFile (w : World) : World :=
  {| running := running w; blocksCache := blocksCache w;
     channelNewlyProcessed := channelNewlyProcessed w;
     fundingTxCache := fundingTxCache w; walletMempoolTxs := walletMempoolTxs w;
     cacheFile := Some (Json (fundingTxCache w)); rpcLog := rpcLog w;
     flushes := flushes w ++ [fundingTxCache w];
     clockReads := clockReads w |}.

Definition tick (w : World) : World :=
  {| running := running w; blocksCache := blocksCache w;
     channelNewlyProcessed := channelNewlyProcessed w;
     fundingTxCache := fundingTxCache w; walletMempoolTxs := walletMempoolTxs w;
     cacheFile := cacheFile w; rpcLog := rpcLog w; flushes := flushes w;
     clockReads := S (clockReads w) |}.

(** A freshly constructed [FundingTxFetcher] next to a given cache file. *)
Definition new_world (file : option FileContent) : World :=
  {| running := false; blocksCache := ∅; channelNewlyProcessed := 0;
     fundingTxCache := ∅; walletMempoolTxs := [];
     cacheFile := file; rpcLog := []; flushes := []; clockReads := 0 |}.

(** ** The collaborators, as computations *)

Variable env : Env.

(** An RPC call is recorded, then answers or throws. *)
Definition call {A} (c : RpcCall) (answer : Result A) : M World A :=
  λ w, (answer, log_rpc c w).

Definition rpc_getAddressTxs (address : string) : M World AddrTxs :=
  call (GetAddressTxs address) (getAddressTxs (rpc env) address).

Definition rpc_getRawMempool (verbose : bool)
  : M World (list (string * MempoolDetails)) :=
  call (GetRawMempool verbose) (getRawMempool (rpc env) verbose).

Definition rpc_getRawTransaction (id : option string) (verbose : option bool)
  : M World RawTx :=
  call (GetRawTransaction id verbose) (getRawTransaction (rpc env) id verbose).

Definition rpc_decodeRawTransaction (raw : RawTx) : M World (option DecodedTx) :=
  call (DecodeRawTransaction raw) (decodeRawTransaction (rpc env) raw).

Definition rpc_getBlockHash (h : option Z) : M World string :=
  call (GetBlockHash h) (getBlockHash (rpc env) h).

Definition rpc_getBlock (hash : string) (verbosity : Z) : M World Block :=
  call (GetBlock hash verbosity) (getBlock (rpc env) hash verbosity).

(** [new Date().getTime() / 1000] *)
Definition now : M World Z :=
  λ w, (Ok (clock env (clockReads w)), tick w).

Definition writeFile : M World unit := modify write_cacheFile.

(** ** The block cache (lines 137-149) *)

(** [this.blocksCache[key]] for a string key. *)
Definition blocksCache_get (c : gmap N Block) (key : string) : option Block :=
  match Js.index_of_key key with
  | Some h => c !! h
  | None => None
  end.

(** [Object.keys(this.blocksCache).sort((a, b) => parseInt(b) - parseInt(a)).reverse()] *)
Definition blocksCacheHashes (c : gmap N Block) : list N :=
  reverse (merge_sort (flip N.le) (map_to_list c).*1).

(** [for (let i = 0; i < 10; ++i) delete this.blocksCache[blocksCacheHashes[i]]] *)
Definition delete_first10 (hashes : list N) (c : gmap N Block) : gmap N Block :=
  foldl (λ m i, match hashes !! i with
                | Some k => delete k m
                | None => m
                end) c (seq 0 10).

Definition evict (c : gmap N Block) : gmap N Block :=
  let hashes := blocksCacheHashes c in
  if decide (BLOCKS_CACHE_MAX_SIZE < length hashes)
  then delete_first10 hashes c
  else c.

(** Lines 142-149: the insertion and the eviction step that follows it. *)
Definition blocksCache_put (block : Block) (c : gmap N Block) : gmap N Block :=
  evict (<[height block := block]> c).

(** ** [$fetchChannelOpenTx] (lines 125-169) *)

(** Lines 155-168: the test of the decoded transaction, then the store. *)
Definition storeFundingTx (channelId : string) (outputIdx : option string)
    (block : Block) (txid : option string) (tx : option DecodedTx)
  : M World (option CacheEntry) :=
  match tx with
  | None => ret None
  | Some tx =>
    match vout tx with
    | None => ret None
    | Some outs =>
      if Js.lt_nan (Z.of_nat (length outs)) (Z.succ <$> Js.parseInt_opt outputIdx)
      then ret None
      else
        match Js.array_get outs outputIdx with
        | None => throw TypeError
        | Some out =>
          match vout_value out with
          | None => ret None
          | Some v =>
            let record :=
              FundingTx {| timestamp := time block; txid := txid; value := v |} in
            run! modify (λ w, set_fundingTxCache
                                (<[channelId := record]> (fundingTxCache w)) w) in
            run! modify (λ w, set_channelNewlyProcessed
                                (S (channelNewlyProcessed w)) w) in
            gets (λ w, fundingTxCache w !! channelId)
          end
        end
    end
  end.

Definition fetchChannelOpenTx (channelId : string) : M World (option CacheEntry) :=
  let channelId := channelIntegerIdToShortId env channelId in
  let! cache := gets fundingTxCache in
  match cache !! channelId with
  | Some hit => ret (Some hit)
  | None =>
    let parts := Js.split "x" channelId in
    let blockHeight := hd "" parts in
    let txIdx := parts !! 1%nat in
    let outputIdx := parts !! 2%nat in
    let! cached := gets (λ w, blocksCache_get (blocksCache w) blockHeight) in
    let! block :=
      match cached with
      | Some b => ret b
      | None =>
        let! blockHash := rpc_getBlockHash (Js.parseInt blockHeight) in
        rpc_getBlock blockHash 1
      end in
    run! modify (λ w, set_blocksCache (<[height block := block]> (blocksCache w)) w) in
    run! modify (λ w, set_blocksCache (evict (blocksCache w)) w) in
    let txid := Js.array_get (tx block) txIdx in
    let! rawTx := rpc_getRawTransaction txid None in
    let! tx := rpc_decodeRawTransaction rawTx in
    storeFundingTx channelId outputIdx block txid tx
  end.

(** ** [$monitorLightningWallet] (lines 40-76) *)

(** [addresses && addresses.includes(MY_LIGHTNING_WALLET_ADDRESS)], which is
    also what [addresses?.includes(...)] tests. *)
Definition paysWallet (out : Vout) : bool :=
  match vout_addresses out with
  | Some addresses => bool_decide (MY_LIGHTNING_WALLET_ADDRESS ∈ addresses)
  | None => false
  end.

(** [sum + out.value]; adding [undefined] gives [NaN]. *)
Definition addValue (sum : Num) (v : option Num) : Num :=
  match v with
  | Some v => num_add env sum v
  | None => num_nan env
  end.

(** [decoded.vout.reduce((sum, out) => pays(out) ? sum + out.value : sum, 0)] *)
Definition walletAmount (outs : list Vout) : Num :=
  foldl (λ sum out, if paysWallet out then addValue sum (vout_value out) else sum)
        (num_zero env) outs.

(** The loop of lines 48-59 over [Object.entries(mempoolEntries)]. *)
Fixpoint scanMempool (entries : list (string * MempoolDetails))
    (mempoolTxs : list WalletTx) : M World (list WalletTx) :=
  match entries with
  | [] => ret mempoolTxs
  | (id, details) :: rest =>
    let! rawTx := rpc_getRawTransaction (Some id) (Some true) in
    let! decoded := rpc_decodeRawTransaction rawTx in
    match decoded with
    | None => throw TypeError
    | Some decoded =>
      match vout decoded with
      | None => throw TypeError
      | Some outs =>
        let sendsToMe := existsb paysWallet outs in
        if sendsToMe
        then scanMempool rest
               (mempoolTxs ++ [ {| wtx_txid := id; amount := walletAmount outs;
                                   wtx_fee := fee details; wtx_vsize := vsize details |} ])
        else scanMempool rest mempoolTxs
      end
    end
  end.

(** The body of the [try] block, lines 42-71. *)
Definition refreshWallet : M World unit :=
  let! confirmedTxs := rpc_getAddressTxs MY_LIGHTNING_WALLET_ADDRESS in
  let! mempoolEntries := rpc_getRawMempool true in
  let! mempoolTxs := scanMempool mempoolEntries [] in
  run! modify (set_walletMempoolTxs mempoolTxs) in
  modify (λ w, set_fundingTxCache
                 (<[MY_LIGHTNING_WALLET_ADDRESS := ConfirmedTxs confirmedTxs]>
                    (fundingTxCache w)) w).

(** The [catch] block only logs. *)
Definition monitorLightningWallet : M World unit :=
  try_catch refreshWallet (λ _, ret tt).

(** ** [$init] (lines 23-38) *)

Definition init : M World unit :=
  let! cache := gets fundingTxCache in
  let! file := gets cacheFile in
  run!
    match file with
    | Some content =>
      if decide (size cache = 0%nat)
      then match content with
           | Json loaded => modify (set_fundingTxCache loaded)
           | Corrupt => modify (set_fundingTxCache ∅)
           end
      else ret tt
    | None => ret tt
    end in
  monitorLightningWallet.

(** ** [$fetchChannelsFundingTxs] (lines 78-123) *)

(** The body of the [for] loop, with the local variables it carries from one
    round to the next: [cacheTimer], [loggerTimer] and [channelProcessed]. *)
Fixpoint fetchLoop (globalTimer : Z) (channelIds : list string)
    (cacheTimer loggerTimer : Z) (channelProcessed : nat) : M World unit :=
  match channelIds with
  | [] => ret tt
  | channelId :: rest =>
    run! fetchChannelOpenTx channelId in
    let channelProcessed := S channelProcessed in
    let! t := now in
    let! loggerTimer :=
      if (LOGGER_UPDATE_INTERVAL env <? roundedSeconds env t loggerTimer)%Z
      then (let! t := now in
            let elapsedSeconds := roundedSeconds env t globalTimer in
            now)
      else ret loggerTimer in
    let! t := now in
    let! cacheTimer :=
      if (60 <? roundedSeconds env t cacheTimer)%Z
      then (run! writeFile in now)
      else ret cacheTimer in
    fetchLoop globalTimer rest cacheTimer loggerTimer channelProcessed
  end.

(** Lines 84-111: the timers, the reset of the counter and the loop. *)
Definition indexChannels (channelIds : list string) : M World unit :=
  let! globalTimer := now in
  let! cacheTimer := now in
  let! loggerTimer := now in
  let channelProcessed := 0%nat in
  run! modify (set_channelNewlyProcessed 0) in
  fetchLoop globalTimer channelIds cacheTimer loggerTimer channelProcessed.

(** Lines 113-117: the flush at the end of the batch. *)
Definition finalFlush : M World unit :=
  let! newly := gets channelNewlyProcessed in
  if decide (0 < newly)%nat then writeFile else ret tt.

Definition fetchChannelsFundingTxs (channelIds : list string) : M World unit :=
  let! busy := gets running in
  if busy : bool then ret tt
  else
    run! modify (set_running true) in
    run! indexChannels channelIds in
    run! finalFlush in
    run! monitorLightningWallet in
    modify (set_running false).

(** [getWalletMempoolStatus] (lines 172-174) *)
Definition getWalletMempoolStatus : M World (list WalletTx) :=
  gets walletMempoolTxs.

End Model.

Arguments Vout : clear implicits.
Arguments DecodedTx : clear implicits.
Arguments MempoolDetails : clear implicits.
Arguments FundingTxRecord : clear implicits.
Arguments CacheEntry : clear implicits.
Arguments WalletTx : clear implicits.
Arguments FileContent : clear implicits.
Arguments RpcCall : clear implicits.
Arguments Rpc : clear implicits.
Arguments Env : clear implicits.
Arguments World : clear implicits.

(** ** Vocabulary of the statements *)

(** The short channel id [H x T x O]. *)
Definition shortId (H T O : N) : string :=
  Js.show H ++ "x" ++ Js.show T ++ "x" ++ Js.show O.

Section Vocabulary.

Local Open Scope nat_scope.

Context {Num RawTx AddrTxs : Type}.
Implicit Types (env : Env Num RawTx AddrTxs) (w : World Num RawTx AddrTxs).

(** [m] keeps [P], whether it returns or throws. *)
Definition preserves {A} (P : World Num RawTx AddrTxs → Prop)
    (m : M (World Num RawTx AddrTxs) A) : Prop :=
  ∀ w, P w → P (snd (m w)).

(** The calls a client of the object can make. *)
Inductive Method : Type :=
  | CallInit
  | CallFetchChannelsFundingTxs (channelIds : list string)
  | CallFetchChannelOpenTx (channelId : string)
  | CallGetWalletMempoolStatus.

(** The world after a call, whether it returned or threw. *)
Definition perform env (m : Method) w : World Num RawTx AddrTxs :=
  match m with
  | CallInit => snd (init env w)
  | CallFetchChannelsFundingTxs channelIds => snd (fetchChannelsFundingTxs env channelIds w)
  | CallFetchChannelOpenTx channelId => snd (fetchChannelOpenTx env channelId w)
  | CallGetWalletMempoolStatus => snd (getWalletMempoolStatus w)
  end.

(** The worlds an object can be in: it is constructed, then called any number
    of times; the collaborators may answer differently from call to call. *)
Inductive reachable : World Num RawTx AddrTxs → Prop :=
  | reachable_new file : reachable (new_world file)
  | reachable_call env m w : reachable w → reachable (perform env m w).

(** The block that a resolution at height [H] works on: the cached one, else
    the one the collaborator answers (lines 137-141). *)
Definition resolvedBlock env w (H : N) : Result Block :=
  match blocksCache w !! H with
  | Some b => Ok b
  | None =>
    match getBlockHash (rpc env) (Some (Z.of_N H)) with
    | Ok blockHash => getBlock (rpc env) blockHash 1
    | Throw e => Throw e
    end
  end.

(** The decoded transaction fails the test of line 155 for output [O]: it is
    missing, has no output list, has fewer than [O + 1] outputs, or its
    output [O] has no value. *)
Definition outputMissing (decoded : option (DecodedTx Num)) (O : N) : Prop :=
  match decoded with
  | None => True
  | Some tx =>
    match vout tx with
    | None => True
    | Some outs =>
      length outs < N.to_nat O + 1 ∨
      ∃ out, outs !! N.to_nat O = Some out ∧ vout_value out = None
    end
  end.

(** What the collaborator decodes for the mempool transaction [id]: its list
    of outputs, when both calls answer and the list is there. *)
Definition decodedOutputs env (id : string) : option (list (Vout Num)) :=
  match getRawTransaction (rpc env) (Some id) (Some true) with
  | Ok raw =>
    match decodeRawTransaction (rpc env) raw with
    | Ok (Some decoded) => vout decoded
    | _ => None
    end
  | Throw _ => None
  end.

(** The output names the watched address among its addresses. *)
Definition paysWatchedAddress (out : Vout Num) : Prop :=
  ∃ addresses, vout_addresses out = Some addresses ∧
               MY_LIGHTNING_WALLET_ADDRESS ∈ addresses.

(** The sum, from [0], in the order of the outputs and by the [+] of the
    amounts, of the values of the outputs that name the watched address; an
    output without a value makes the sum [NaN], as [n + undefined] is. *)
Definition matchingAmount env (outs : list (Vout Num)) : Num :=
  foldl (λ sum v, match v with
                  | Some v => num_add env sum v
                  | None => num_nan env
                  end)
    (num_zero env)
    (vout_value <$> filter (λ out, paysWallet out = true) outs).

(** The snapshot in the words of the spec: one entry, in the order of the
    mempool listing, for each transaction whose decoded outputs include one
    that pays the watched address, with the sum of the values of those
    outputs as amount. *)
Definition expectedSnapshot env (entries : list (string * MempoolDetails Num))
  : list (WalletTx Num) :=
  omap (λ entry,
          match decodedOutputs env entry.1 with
          | Some outs =>
            if existsb paysWallet outs
            then Some {| wtx_txid := entry.1; amount := matchingAmount env outs;
                         wtx_fee := fee entry.2; wtx_vsize := vsize entry.2 |}
            else None
          | None => None
          end) entries.

(** The counter counts the records added to [fundingTxCache] since it held
    [cache0] and the counter was reset. *)
Definition counts_from (cache0 : gmap string (CacheEntry Num AddrTxs))
    (w : World Num RawTx AddrTxs) : Prop :=
  cache0 ⊆ fundingTxCache w ∧
  channelNewlyProcessed w + size cache0 = size (fundingTxCache w).

(** The block that a resolution works on, for the text [blockHeight] of the
    first part of the id: the cached one, else the one the collaborator
    answers for [parseInt(blockHeight, 10)] (lines 137-141). *)
Definition blockFor env w (blockHeight : string) : Result Block :=
  match blocksCache_get (blocksCache w) blockHeight with
  | Some b => Ok b
  | None =>
    match getBlockHash (rpc env) (Js.parseInt blockHeight) with
    | Ok blockHash => getBlock (rpc env) blockHash 1
    | Throw e => Throw e
    end
  end.

(** The RPC calls that resolving that block takes: none when it is cached. *)
Definition blockCalls env w (blockHeight : string) : list (RpcCall RawTx) :=
  match blocksCache_get (blocksCache w) blockHeight with
  | Some _ => []
  | None =>
    GetBlockHash (Js.parseInt blockHeight) ::
    match getBlockHash (rpc env) (Js.parseInt blockHeight) with
    | Ok blockHash => [GetBlock blockHash 1]
    | Throw _ => []
    end
  end.

(** A sequence of calls on the object, each with the collaborators as they
    are at the time of the call; the world after the last one. *)
Definition performAll (calls : list (Env Num RawTx AddrTxs * Method)) w
  : World Num RawTx AddrTxs :=
  foldl (λ w0 c, perform c.1 c.2 w0) w calls.

(** What the collaborator answers to a refresh when it answers all of it:
    the confirmed history of the watched address and the mempool listing,
    every transaction of which can be fetched and decoded to an output list.
    [None] when one of these calls throws or one decoded transaction has no
    output list, that is, when an exception occurs during the refresh. *)
Definition refreshAnswers env
  : option (AddrTxs * list (string * MempoolDetails Num)) :=
  match getAddressTxs (rpc env) MY_LIGHTNING_WALLET_ADDRESS,
        getRawMempool (rpc env) true with
  | Ok confirmedTxs, Ok mempoolEntries =>
    if decide (Forall (λ entry, is_Some (decodedOutputs env entry.1)) mempoolEntries)
    then Some (confirmedTxs, mempoolEntries)
    else None
  | _, _ => None
  end.

(** The first part of the normalised id is written in decimal digits.  Such a
    text names no member that a JavaScript object inherits ([constructor],
    [toString], ...), so [this.blocksCache[blockHeight]] finds what was stored
    under it or nothing. *)
Definition decimalId env (channelId : string) : Prop :=
  Js.all_digits (hd "" (Js.split "x" (channelIntegerIdToShortId env channelId)))
  = true.


End Vocabulary.

(** ** A small chain to run the model on

    One block at height 700000 with two transactions; the second one has two
    outputs, the second of which pays the watched address.  Amounts are in
    satoshis, channel ids are taken as already short. *)

Definition stubBlock : Block :=
  {| height := 700000; time := 1631000000; tx := ["txA"; "txB"] |}.

Definition stubTxB : DecodedTx Z :=
  {| vout := Some [ {| vout_value := Some 50000%Z; vout_addresses := Some ["bc1qother"] |};
                    {| vout_value := Some 20000%Z;
                       vout_addresses := Some [MY_LIGHTNING_WALLET_ADDRESS] |} ] |}.

Definition stubRpc : Rpc Z string (list string) :=
  {| getAddressTxs := λ _, Ok ["txB"];
     getRawMempool := λ _, Ok [("txA", {| fee := 10%Z; vsize := 140%Z |});
                               ("txB", {| fee := 20%Z; vsize := 200%Z |})];
     getRawTransaction := λ id _,
       match id with
       | Some id => Ok ("raw:" ++ id)
       | None => Throw (RpcError "txid must be a string")
       end;
     decodeRawTransaction := λ raw,
       if String.eqb raw "raw:txB" then Ok (Some stubTxB)
       else if String.eqb raw "raw:txA" then Ok (Some {| vout := Some [] |})
       else Throw (RpcError "TX decode failed");
     getBlockHash := λ h,
       match h with
       | Some 700000%Z => Ok "hash700000"
       | _ => Throw (RpcError "Block height out of range")
       end;
     getBlock := λ hash _,
       if String.eqb hash "hash700000" then Ok stubBlock
       else Throw (RpcError "Block not found") |}.

(** A clock that advances by [step] milliseconds between two readings, and
    the rounding of exact arithmetic. *)
Definition stubEnv (step : Z) : Env Z string (list string) :=
  {| channelIntegerIdToShortId := λ id, id;
     rpc := stubRpc;
     clock := λ k, (1700000000000 + step * Z.of_nat k)%Z;
     roundedSeconds := λ t1 t0, ((t1 - t0 + 500) / 1000)%Z;
     LOGGER_UPDATE_INTERVAL := 10%Z;
     num_zero := 0%Z;
     num_nan := (-1)%Z;
     num_add := Z.add |}.

(** The same, with a collaborator that cannot list the transactions of an
    address. *)
Definition walletDownEnv : Env Z string (list string) :=
  {| channelIntegerIdToShortId := channelIntegerIdToShortId (stubEnv 1);
     rpc := {| getAddressTxs := λ _, Throw (RpcError "getAddressTxs is not available");
               getRawMempool := getRawMempool stubRpc;
               getRawTransaction := getRawTransaction stubRpc;
               decodeRawTransaction := decodeRawTransaction stubRpc;
               getBlockHash := getBlockHash stubRpc;
               getBlock := getBlock stubRpc |};
     clock := clock (stubEnv 1);
     roundedSeconds := roundedSeconds (stubEnv 1);
     LOGGER_UPDATE_INTERVAL := LOGGER_UPDATE_INTERVAL (stubEnv 1);
     num_zero := num_zero (stubEnv 1);
     num_nan := num_nan (stubEnv 1);
     num_add := num_add (stubEnv 1) |}.

(** Worlds on that chain.  A new object without a cache file; the same after
    one resolution of [700000x1x0]; after a batch over that id; after a batch
    over an id whose block the collaborator does not have; and an object that
    was started next to a cache file holding a record for [700000x1x5]. *)
Definition freshWorld : World Z string (list string) := new_world None.

Definition resolvedWorld : World Z string (list string) :=
  perform (stubEnv 1) (CallFetchChannelOpenTx "700000x1x0") freshWorld.

Definition indexedWorld : World Z string (list string) :=
  perform (stubEnv 1) (CallFetchChannelsFundingTxs ["700000x1x0"]) freshWorld.

Definition stuckWorld : World Z string (list string) :=
  perform (stubEnv 1) (CallFetchChannelsFundingTxs ["700001x0x0"]) freshWorld.

(** [indexedWorld] after a batch over 115 copies of the same id, run with a
    clock that moves by a quarter of a second between two readings; and the
    same with 116 copies. *)
Definition quietBatchWorld : World Z string (list string) :=
  perform (stubEnv 250) (CallFetchChannelsFundingTxs (replicate 115 "700000x1x0"))
    indexedWorld.

Definition checkpointBatchWorld : World Z string (list string) :=
  perform (stubEnv 250) (CallFetchChannelsFundingTxs (replicate 116 "700000x1x0"))
    indexedWorld.

(** The world in which the loop of a first batch on a new object starts. *)
Definition loopStartWorld : World Z string (list string) :=
  set_channelNewlyProcessed 0 (tick (tick (tick (set_running true freshWorld)))).

(** [freshWorld] after a resolution of [700000x1x5]: block 700000 is there,
    output 5 of its second transaction is not. *)
Definition missingWorld : World Z string (list string) :=
  perform (stubEnv 1) (CallFetchChannelOpenTx "700000x1x5") freshWorld.

Definition staleRecord : CacheEntry Z (list string) :=
  FundingTx {| timestamp := 1600000000; txid := Some "txOld"; value := 7000%Z |}.

Definition staleWorld : World Z string (list string) :=
  perform (stubEnv 1) CallInit
    (new_world (Some (Json {[ "700000x1x5" := staleRecord ]}))).

(** The record that the chain holds for [700000x1x0]. *)
Definition stubRecord : CacheEntry Z (list string) :=
  FundingTx {| timestamp := 1631000000; txid := Some "txB"; value := 50000%Z |}.

(** A block cache holding the heights [first], ..., [first + count - 1]. *)
Definition blocksAt (first : N) (count : nat) : gmap N Block :=
  list_to_map ((λ i, let h := (first + N.of_nat i)%N in
                      (h, {| height := h; time := 0; tx := [] |}))
                 <$> seq 0 count).

(** A new object whose block cache is full, with the heights 700001 to
    700100, all above the one block of the chain. *)
Definition fullCacheWorld : World Z string (list string) :=
  set_blocksCache (blocksAt 700001 100) freshWorld.

(** New objects next to a cache file that holds a record for [700000x1x5],
    and next to a cache file that cannot be parsed. *)
Definition staleFileWorld : World Z string (list string) :=
  new_world (Some (Json {[ "700000x1x5"%string := staleRecord ]})).

Definition corruptFileWorld : World Z string (list string) :=
  new_world (Some Corrupt).

(** The first of them, on which [700000x1x0] was resolved before [$init] was
    called. *)
Definition lateInitWorld : World Z string (list string) :=
  perform (stubEnv 1) (CallFetchChannelOpenTx "700000x1x0") staleFileWorld.

(** The chain with a mempool that lists, after [txB], a transaction that the
    collaborator can fetch but not decode. *)
Definition goneTxEnv : Env Z string (list string) :=
  {| channelIntegerIdToShortId := channelIntegerIdToShortId (stubEnv 1);
     rpc := {| getAddressTxs := getAddressTxs stubRpc;
               getRawMempool := λ _, Ok [("txB"%string, {| fee := 20%Z; vsize := 200%Z |});
                                         ("txGone"%string, {| fee := 5%Z; vsize := 110%Z |})];
               getRawTransaction := getRawTransaction stubRpc;
               decodeRawTransaction := decodeRawTransaction stubRpc;
               getBlockHash := getBlockHash stubRpc;
               getBlock := getBlock stubRpc |};
     clock := clock (stubEnv 1);
     roundedSeconds := roundedSeconds (stubEnv 1);
     LOGGER_UPDATE_INTERVAL := LOGGER_UPDATE_INTERVAL (stubEnv 1);
     num_zero := num_zero (stubEnv 1);
     num_nan := num_nan (stubEnv 1);
     num_add := num_add (stubEnv 1) |}.

(** A new object whose wallet snapshot holds an entry of an earlier refresh. *)
Definition oldSnapshotWorld : World Z string (list string) :=
  set_walletMempoolTxs
    [ {| wtx_txid := "txOld"; amount := 1%Z; wtx_fee := 1%Z; wtx_vsize := 100%Z |} ]
    freshWorld.

(** The world in which the loop of a first batch over [700000x1x0] ends on a
    new object, under a clock that moves by 61 seconds between two
    readings. *)
Definition checkpointedWorld : World Z string (list string) :=
  snd (fetchLoop (stubEnv 61000) (clock (stubEnv 61000) 0) ["700000x1x0"%string]
         (clock (stubEnv 61000) 1) (clock (stubEnv 61000) 2) 0 loopStartWorld).


(** ** Facts about decimal texts and [split] *)

Module JsFacts.
Import Js.

Lemma split_no_sep sep s : no_sep sep s = true → split sep s = [s].
Proof.
  induction s as [|c s IH]; simpl; [done|].
  intros [Hc Hs]%andb_true_iff. apply negb_true_iff in Hc.
  by rewrite Hc, IH.
Qed.

Lemma split_app sep a r :
  no_sep sep a = true →
  split sep (a ++ String sep r) = a :: split sep r.
Proof.
  induction a as [|c a IH]; simpl.
  - intros _. by rewrite Ascii.eqb_refl.
  - intros [Hc Ha]%andb_true_iff. apply negb_true_iff in Hc.
    by rewrite Hc, IH.
Qed.

Lemma all_digits_uint d : all_digits (NilEmpty.string_of_uint d) = true.
Proof. induction d; simpl; auto. Qed.

Lemma all_digits_show n : all_digits (show n) = true.
Proof.
  unfold show, NilZero.string_of_uint.
  destruct (N.to_uint n); try reflexivity; apply all_digits_uint.
Qed.

Lemma to_uint_nonnil n : N.to_uint n ≠ Decimal.Nil.
Proof.
  destruct n as [|p]; simpl; [discriminate|].
  apply DecimalPos.Unsigned.to_uint_nonnil.
Qed.

Lemma uint_of_show n : NilZero.uint_of_string (show n) = Some (N.to_uint n).
Proof. apply NilZero.usu, to_uint_nonnil. Qed.

Lemma digits_prefix_all s : all_digits s = true → digits_prefix s = s.
Proof.
  induction s as [|c s IH]; simpl; [done|].
  intros [Hc Hs]%andb_true_iff. by rewrite Hc, IH.
Qed.

Lemma digit_no_sep sep s :
  is_digit sep = false → all_digits s = true → no_sep sep s = true.
Proof.
  intros Hsep. induction s as [|c s IH]; simpl; [done|].
  intros [Hc Hs]%andb_true_iff. rewrite IH by done.
  destruct (Ascii.eqb_spec c sep) as [->|]; [congruence|done].
Qed.

Lemma show_no_x n : no_sep "x" (show n) = true.
Proof. apply digit_no_sep; [reflexivity|apply all_digits_show]. Qed.

Lemma digit_head_plain c s :
  is_digit c = true →
  skip_spaces (String c s) = String c s ∧ c ≠ "-"%char ∧ c ≠ "+"%char.
Proof.
  intros Hc. split; [|split]; try (intros ->; discriminate).
  simpl. destruct (is_space c) eqn:Hs; [|done].
  exfalso. revert Hc Hs. unfold is_digit, is_space.
  generalize (nat_of_ascii c). intros n.
  rewrite !andb_true_iff, orb_true_iff, andb_true_iff, !Nat.leb_le, Nat.eqb_eq.
  lia.
Qed.

Lemma parseInt_show n : parseInt (show n) = Some (Z.of_N n).
Proof.
  pose proof (all_digits_show n) as Hd.
  pose proof (uint_of_show n) as Hu.
  unfold parseInt.
  destruct (show n) as [|c s] eqn:Hs; [discriminate|].
  simpl in Hd. apply andb_true_iff in Hd as [Hc Hd].
  destruct (digit_head_plain c s Hc) as (-> & Hm & Hp).
  assert (digits_prefix (String c s) = String c s) as Hpre.
  { apply digits_prefix_all. simpl. by rewrite Hc, Hd. }
  destruct (Ascii.eqb_spec c "-"%char) as [->|_]; [done|].
  destruct (Ascii.eqb_spec c "+"%char) as [->|_]; [done|].
  assert (match String c s with
          | String "-"%char r => (true, r)
          | String "+"%char r => (false, r)
          | _ => (false, String c s)
          end = (false, String c s)) as ->.
  { destruct c as [[] [] [] [] [] [] [] []]; try done. }
  rewrite Hpre, Hu. by rewrite DecimalN.Unsigned.of_to.
Qed.

Lemma index_of_key_show n : index_of_key (show n) = Some n.
Proof.
  unfold index_of_key. rewrite uint_of_show, DecimalN.Unsigned.of_to.
  by rewrite String.eqb_refl.
Qed.

Lemma index_of_key_Some k n : index_of_key k = Some n → k = show n.
Proof.
  unfold index_of_key. destruct (NilZero.uint_of_string k); [|done].
  destruct (String.eqb_spec (show (N.of_uint u)) k); [|done].
  by intros [= <-].
Qed.

Lemma array_get_show {A} (arr : list A) n :
  array_get arr (Some (show n)) = arr !! N.to_nat n.
Proof. unfold array_get. by rewrite index_of_key_show. Qed.

End JsFacts.

(** ** Properties of the fetcher *)



Section Properties.

Local Close Scope string_scope.
Local Open Scope nat_scope.

Context {Num RawTx AddrTxs : Type}.
Implicit Types (env : Env Num RawTx AddrTxs) (w : World Num RawTx AddrTxs).
Implicit Types (c : gmap N Block) (block b : Block).

(** *** Running computations *)

Lemma bind_Ok {A B} (m : M (World Num RawTx AddrTxs) A) (k : A → M _ B) w a w1 :
  m w = (Ok a, w1) → bind m k w = k a w1.
Proof. intros Hm. unfold bind. by rewrite Hm. Qed.

Lemma bind_Throw {A B} (m : M (World Num RawTx AddrTxs) A) (k : A → M _ B) w e w1 :
  m w = (Throw e, w1) → bind m k w = (Throw e, w1).
Proof. intros Hm. unfold bind. by rewrite Hm. Qed.

Lemma bind_inv_Ok {A B} (m : M (World Num RawTx AddrTxs) A) (k : A → M _ B) w r w' :
  bind m k w = (Ok r, w') →
  ∃ a w1, m w = (Ok a, w1) ∧ k a w1 = (Ok r, w').
Proof.
  unfold bind. destruct (m w) as [[a|e] w1]; [|done]. intros Hk. by exists a, w1.
Qed.

Lemma run_Ok_eq {A} (run : Result A * World Num RawTx AddrTxs) a :
  fst run = Ok a → run = (Ok a, snd run).
Proof. destruct run as [r w]. cbn. by intros ->. Qed.

Lemma run_Throw_eq {A} (run : Result A * World Num RawTx AddrTxs) e :
  fst run = Throw e → run = (Throw e, snd run).
Proof. destruct run as [r w]. cbn. by intros ->. Qed.

Section preserves.

Context (P : World Num RawTx AddrTxs → Prop).

Lemma preserves_ret {A} (a : A) : preserves P (ret a).
Proof. by intros w. Qed.

Lemma preserves_throw {A} e : preserves P (throw (A:=A) e).
Proof. by intros w. Qed.

Lemma preserves_gets {A} (f : _ → A) : preserves P (gets f).
Proof. by intros w. Qed.

Lemma preserves_modify f : (∀ w, P w → P (f w)) → preserves P (modify f).
Proof. intros Hf w Hw. by apply Hf. Qed.

Lemma preserves_bind {A B} (m : M _ A) (k : A → M _ B) :
  preserves P m → (∀ a, preserves P (k a)) → preserves P (bind m k).
Proof.
  intros Hm Hk w Hw. specialize (Hm w Hw). unfold bind.
  destruct (m w) as [[a|e] w1]; simpl in *; [by apply Hk|done].
Qed.

Lemma preserves_try_catch {A} (body : M _ A) handler :
  preserves P body → (∀ e, preserves P (handler e)) →
  preserves P (try_catch body handler).
Proof.
  intros Hm Hk w Hw. specialize (Hm w Hw). unfold try_catch.
  destruct (body w) as [[a|e] w1]; simpl in *; [done|by apply Hk].
Qed.

Lemma preserves_call {A} call_ (answer : Result A) :
  (∀ w, P w → P (log_rpc call_ w)) → preserves P (call call_ answer).
Proof. intros Hf w Hw. by apply Hf. Qed.

Lemma preserves_now env : (∀ w, P w → P (tick w)) → preserves P (now env).
Proof. intros Hf w Hw. by apply Hf. Qed.

End preserves.

Ltac unfold_rpc :=
  unfold rpc_getAddressTxs, rpc_getRawMempool, rpc_getRawTransaction,
    rpc_decodeRawTransaction, rpc_getBlockHash, rpc_getBlock, call.

Ltac unfold_monad := unfold bind, ret, throw, gets, modify, try_catch.

(** *** The cache-hit fast path and the single-flight guard *)

Lemma fetchChannelOpenTx_hit_run env w channelId hit :
  fundingTxCache w !! channelIntegerIdToShortId env channelId = Some hit →
  fetchChannelOpenTx env channelId w = (Ok (Some hit), w).
Proof.
  intros Hhit. unfold fetchChannelOpenTx, bind, gets. simpl.
  by rewrite Hhit.
Qed.

Lemma fetchChannelsFundingTxs_busy_run env w channelIds :
  running w = true →
  fetchChannelsFundingTxs env channelIds w = (Ok tt, w).
Proof.
  intros Hbusy. unfold fetchChannelsFundingTxs, bind, gets. simpl.
  by rewrite Hbusy.
Qed.

(** C4. A channel id whose normalised key is present in [fundingTxCache] is
    answered with the cached entry and the world is left exactly as it was:
    no RPC call is recorded, no cache and no counter is touched. *)
Theorem fetchChannelOpenTx_cache_hit env w channelId hit :
  fundingTxCache w !! channelIntegerIdToShortId env channelId = Some hit →
  fetchChannelOpenTx env channelId w = (Ok (Some hit), w).
Proof.
  intros Hhit. unfold fetchChannelOpenTx. unfold_monad.
  by rewrite Hhit.
Qed.

(** C8. A call of [$fetchChannelsFundingTxs] made while [running] is set
    returns at once and leaves the whole world as it was. *)
Theorem fetchChannelsFundingTxs_while_running env w channelIds :
  running w = true →
  fetchChannelsFundingTxs env channelIds w = (Ok tt, w).
Proof.
  intros Hbusy. unfold fetchChannelsFundingTxs, bind, gets. simpl.
  by rewrite Hbusy.
Qed.

(** *** The block cache *)

Local Instance flip_N_le_total : Total (flip N.le).
Proof. intros x y. unfold flip. lia. Qed.

Local Instance flip_N_le_trans : Transitive (flip N.le).
Proof. intros x y z. unfold flip. lia. Qed.

Lemma StronglySorted_reverse_flip (l : list N) :
  StronglySorted (flip N.le) l → StronglySorted N.le (reverse l).
Proof.
  induction l as [|x l IH]; [constructor|].
  rewrite StronglySorted_cons, reverse_cons. intros [Hx Hl].
  apply StronglySorted_app. split_and!.
  - intros y z Hy Hz%list_elem_of_singleton. subst z.
    rewrite elem_of_reverse in Hy.
    rewrite Forall_forall in Hx. exact (Hx y Hy).
  - by apply IH.
  - repeat constructor.
Qed.

Lemma blocksCacheHashes_Permutation c :
  blocksCacheHashes c ≡ₚ (map_to_list c).*1.
Proof.
  unfold blocksCacheHashes.
  by rewrite reverse_Permutation, merge_sort_Permutation.
Qed.

Lemma elem_of_blocksCacheHashes c k :
  k ∈ blocksCacheHashes c ↔ is_Some (c !! k).
Proof.
  rewrite blocksCacheHashes_Permutation, list_elem_of_fmap. split.
  - intros [[k' b] [-> Hin]]. apply elem_of_map_to_list in Hin. by eexists.
  - intros [b Hb]. exists (k, b). split; [done|]. by apply elem_of_map_to_list.
Qed.

Lemma blocksCacheHashes_NoDup c : NoDup (blocksCacheHashes c).
Proof. rewrite blocksCacheHashes_Permutation. apply NoDup_fst_map_to_list. Qed.

Lemma length_blocksCacheHashes c : length (blocksCacheHashes c) = size c.
Proof.
  rewrite blocksCacheHashes_Permutation, length_fmap. apply length_map_to_list.
Qed.

(** The keys come out in ascending order of height. *)
Lemma blocksCacheHashes_sorted c : StronglySorted N.le (blocksCacheHashes c).
Proof.
  unfold blocksCacheHashes.
  apply StronglySorted_reverse_flip, StronglySorted_merge_sort; apply _.
Qed.

(** Deleting [hashes[0..n-1]] removes exactly the first [n] keys listed. *)
Lemma lookup_delete_prefix (hashes : list N) c n k :
  foldl (λ m i, match hashes !! i with
                | Some h => delete h m
                | None => m
                end) c (seq 0 n) !! k
  = if decide (k ∈ take n hashes) then None else c !! k.
Proof.
  induction n as [|n IH].
  - cbn [seq foldl]. case_decide as Hk; [|done]. rewrite take_0 in Hk.
    by apply elem_of_nil in Hk.
  - rewrite seq_S, foldl_app. cbn [foldl Nat.add].
    destruct (hashes !! n) as [h|] eqn:Hn.
    + rewrite (take_S_r _ _ _ Hn), lookup_delete, IH.
      destruct (decide (h = k)) as [->|Hne].
      * rewrite decide_True; [done|]. apply elem_of_app. right. by left.
      * destruct (decide (k ∈ take n hashes)) as [Hin|Hnin].
        -- rewrite decide_True; [done|]. apply elem_of_app. by left.
        -- rewrite decide_False; [done|].
           intros [?|?%list_elem_of_singleton]%elem_of_app; congruence.
    + apply lookup_ge_None in Hn.
      rewrite IH, !take_ge by lia. done.
Qed.

Lemma lookup_delete_first10 (hashes : list N) c k :
  delete_first10 hashes c !! k
  = if decide (k ∈ take 10 hashes) then None else c !! k.
Proof. apply lookup_delete_prefix. Qed.

Lemma evict_small c : size c ≤ BLOCKS_CACHE_MAX_SIZE → evict c = c.
Proof.
  intros Hsz. unfold evict. rewrite length_blocksCacheHashes.
  case_decide; [lia|done].
Qed.

Lemma evict_large c :
  BLOCKS_CACHE_MAX_SIZE < size c →
  evict c = delete_first10 (blocksCacheHashes c) c.
Proof.
  intros Hsz. unfold evict. rewrite length_blocksCacheHashes.
  case_decide; [done|lia].
Qed.

(** What the eviction removes: ten distinct keys of the cache, each smaller
    than every key that stays. *)
Lemma evicted_lowest c :
  BLOCKS_CACHE_MAX_SIZE < size c →
  let evicted := take 10 (blocksCacheHashes c) in
  length evicted = 10 ∧ NoDup evicted ∧
  (∀ k, k ∈ evicted → is_Some (c !! k)) ∧
  (∀ k k', k ∈ evicted → is_Some (c !! k') → k' ∉ evicted → (k < k')%N).
Proof.
  intros Hsz evicted. unfold BLOCKS_CACHE_MAX_SIZE in Hsz.
  pose proof (blocksCacheHashes_NoDup c) as Hnd.
  pose proof (blocksCacheHashes_sorted c) as Hsorted.
  rewrite <-(take_drop 10 (blocksCacheHashes c)) in Hnd, Hsorted.
  fold evicted in Hnd, Hsorted.
  apply NoDup_app in Hnd as (Hnd1 & Hdisj & _).
  split_and!.
  - unfold evicted. rewrite length_take, length_blocksCacheHashes. lia.
  - done.
  - intros k Hk. apply elem_of_blocksCacheHashes.
    rewrite <-(take_drop 10 (blocksCacheHashes c)). set_solver.
  - intros k k' Hk Hk' Hnot.
    apply elem_of_blocksCacheHashes in Hk'.
    rewrite <-(take_drop 10 (blocksCacheHashes c)) in Hk'.
    apply elem_of_app in Hk' as [Hk'|Hk']; [done|].
    pose proof (StronglySorted_app_1_elem_of _ _ _ _ _ Hsorted Hk Hk') as Hle.
    assert (k ≠ k') by (intros ->; by eapply Hdisj).
    lia.
Qed.

Lemma size_evict_large c :
  BLOCKS_CACHE_MAX_SIZE < size c → size (evict c) = size c - 10.
Proof.
  intros Hsz. destruct (evicted_lowest c Hsz) as (Hlen & Hnd & Hin & _).
  rewrite evict_large by done.
  set (evicted := take 10 (blocksCacheHashes c)) in *.
  assert (dom (delete_first10 (blocksCacheHashes c) c)
          = dom c ∖ (list_to_set evicted : gset N)) as Hdom.
  { apply set_eq. intros k.
    rewrite elem_of_difference, !elem_of_dom, elem_of_list_to_set,
      lookup_delete_first10.
    fold evicted. case_decide; [|tauto].
    split; [by intros []|tauto]. }
  rewrite <-!(size_dom (D:=gset N)), Hdom, size_difference.
  - by rewrite size_list_to_set, Hlen.
  - intros k Hk%elem_of_list_to_set. by apply elem_of_dom, Hin.
Qed.

(** The insertion of line 142 followed by the eviction of lines 144-149 keeps
    a cache of at most 100 entries at most 100 entries large. *)
Lemma size_blocksCache_put block c :
  size c ≤ BLOCKS_CACHE_MAX_SIZE →
  size (blocksCache_put block c) ≤ BLOCKS_CACHE_MAX_SIZE.
Proof.
  intros Hsz. unfold blocksCache_put.
  pose proof (map_size_insert (height block) block c) as Hins.
  destruct (decide (size (<[height block:=block]> c) ≤ BLOCKS_CACHE_MAX_SIZE))
    as [Hle|Hgt].
  - by rewrite evict_small.
  - rewrite size_evict_large by lia.
    unfold BLOCKS_CACHE_MAX_SIZE in *.
    destruct (c !! height block); simpl in Hins; lia.
Qed.

(** *** What one resolution can change *)

(** [$fetchChannelOpenTx] touches neither the guard, the wallet snapshot, the
    cache file nor the clock; it leaves the block cache alone or puts one
    block into it; and it leaves [fundingTxCache] and the counter alone unless
    it stores one record under a key that was absent, counts it and returns
    it. *)
Lemma fetchChannelOpenTx_effect env channelId w :
  let id := channelIntegerIdToShortId env channelId in
  let r := fst (fetchChannelOpenTx env channelId w) in
  let w' := snd (fetchChannelOpenTx env channelId w) in
  (running w' = running w ∧ walletMempoolTxs w' = walletMempoolTxs w ∧
   cacheFile w' = cacheFile w ∧ flushes w' = flushes w ∧
   clockReads w' = clockReads w) ∧
  (blocksCache w' = blocksCache w ∨
   ∃ b, blocksCache w' = blocksCache_put b (blocksCache w)) ∧
  ((fundingTxCache w' = fundingTxCache w ∧
    channelNewlyProcessed w' = channelNewlyProcessed w) ∨
   (fundingTxCache w !! id = None ∧
    ∃ record, fundingTxCache w' = <[id := record]> (fundingTxCache w) ∧
              channelNewlyProcessed w' = S (channelNewlyProcessed w) ∧
              r = Ok (Some record))).
Proof.
  unfold fetchChannelOpenTx, storeFundingTx. unfold_rpc. unfold_monad. cbn [fst snd].
  destruct (fundingTxCache w !! channelIntegerIdToShortId env channelId)
    as [hit|] eqn:Hhit.
  { cbn. split_and!; auto. }
  set (parts := Js.split "x" (channelIntegerIdToShortId env channelId)).
  destruct (blocksCache_get (blocksCache w) (hd "" parts)) as [cached|].
  all: repeat (cbn -[blocksCache_get evict Js.array_get Js.lt_nan Js.parseInt];
               first [ done | case_match; simplify_eq ]).
  all: cbn; split_and!; eauto.
  all: try (right; eexists; reflexivity).
  all: try (right; split; [done|]; eexists; split_and!; try reflexivity;
            by rewrite lookup_insert_eq).
Qed.

(** *** Properties kept by every method *)

Section frames.

Context (P : World Num RawTx AddrTxs → Prop).
Hypothesis P_log_rpc : ∀ w call_, P w → P (log_rpc call_ w).

Lemma preserves_scanMempool env entries mempoolTxs :
  preserves P (scanMempool env entries mempoolTxs).
Proof.
  revert mempoolTxs. induction entries as [|[id details] rest IH]; intros acc.
  - apply preserves_ret.
  - cbn [scanMempool]. unfold_rpc.
    apply preserves_bind; [apply preserves_call; auto|]. intros raw.
    apply preserves_bind; [apply preserves_call; auto|]. intros [decoded|].
    + destruct (vout decoded) as [outs|]; [|apply preserves_throw].
      destruct (existsb paysWallet outs); apply IH.
    + apply preserves_throw.
Qed.

Hypothesis P_set_walletMempoolTxs : ∀ w l, P w → P (set_walletMempoolTxs l w).
Hypothesis P_set_fundingTxCache_wallet :
  ∀ w txs, P w →
    P (set_fundingTxCache
         (<[MY_LIGHTNING_WALLET_ADDRESS := ConfirmedTxs txs]> (fundingTxCache w)) w).

Lemma preserves_refreshWallet env : preserves P (refreshWallet env).
Proof.
  unfold refreshWallet. unfold_rpc.
  apply preserves_bind; [apply preserves_call; auto|]. intros confirmed.
  apply preserves_bind; [apply preserves_call; auto|]. intros entries.
  apply preserves_bind; [apply preserves_scanMempool|]. intros txs.
  apply preserves_bind; [apply preserves_modify; auto|]. intros _.
  apply preserves_modify; auto.
Qed.

Lemma preserves_monitorLightningWallet env :
  preserves P (monitorLightningWallet env).
Proof.
  apply preserves_try_catch; [apply preserves_refreshWallet|].
  intros _. apply preserves_ret.
Qed.

Hypothesis P_tick : ∀ w, P w → P (tick w).

(** The loop keeps what every resolution of the list keeps, provided the
    checkpoint keeps it too whenever one can fall due. *)
Lemma preserves_fetchLoop env globalTimer channelIds cacheTimer loggerTimer n :
  ((∃ t t0, (60 <? roundedSeconds env t t0)%Z = true) →
   ∀ w, P w → P (write_cacheFile w)) →
  (∀ channelId, channelId ∈ channelIds →
                preserves P (fetchChannelOpenTx env channelId)) →
  preserves P (fetchLoop env globalTimer channelIds cacheTimer loggerTimer n).
Proof.
  intros Hwrite Hfetch. revert cacheTimer loggerTimer n.
  induction channelIds as [|channelId rest IH]; intros cacheTimer loggerTimer n.
  - apply preserves_ret.
  - cbn [fetchLoop].
    apply preserves_bind; [apply Hfetch; by left|]. intros _.
    apply preserves_bind; [by apply preserves_now|]. intros t.
    apply preserves_bind.
    { case_match; [|apply preserves_ret].
      apply preserves_bind; [by apply preserves_now|]. intros _.
      by apply preserves_now. }
    intros loggerTimer'.
    apply preserves_bind; [by apply preserves_now|]. intros t'.
    apply preserves_bind.
    { case_match eqn:Hdue; [|apply preserves_ret].
      apply preserves_bind; [|intros _; by apply preserves_now].
      apply preserves_modify, Hwrite. by exists t', cacheTimer. }
    intros cacheTimer'. apply IH. intros id Hid. apply Hfetch. by right.
Qed.

Hypothesis P_write_cacheFile : ∀ w, P w → P (write_cacheFile w).
Hypothesis P_reset : ∀ w, P w → P (set_channelNewlyProcessed 0 w).
Hypothesis P_set_running : ∀ w flag, P w → P (set_running flag w).

Lemma preserves_fetchChannelsFundingTxs env channelIds :
  (∀ channelId, preserves P (fetchChannelOpenTx env channelId)) →
  preserves P (fetchChannelsFundingTxs env channelIds).
Proof.
  intros Hfetch. unfold fetchChannelsFundingTxs.
  apply preserves_bind; [apply preserves_gets|]. intros [|]; [apply preserves_ret|].
  apply preserves_bind; [apply preserves_modify; auto|]. intros _.
  apply preserves_bind.
  { unfold indexChannels.
    do 3 (apply preserves_bind; [by apply preserves_now|]; intros ?).
    apply preserves_bind; [apply preserves_modify; auto|]. intros _.
    apply preserves_fetchLoop; auto. }
  intros _. apply preserves_bind.
  { unfold finalFlush. apply preserves_bind; [apply preserves_gets|]. intros newly.
    case_decide; [by apply preserves_modify|apply preserves_ret]. }
  intros _. apply preserves_bind; [apply preserves_monitorLightningWallet|].
  intros _. apply preserves_modify; auto.
Qed.

Hypothesis P_set_fundingTxCache : ∀ w cache, P w → P (set_fundingTxCache cache w).

Lemma preserves_init env : preserves P (init env).
Proof.
  unfold init.
  apply preserves_bind; [apply preserves_gets|]. intros cache.
  apply preserves_bind; [apply preserves_gets|]. intros file.
  apply preserves_bind; [|intros _; apply preserves_monitorLightningWallet].
  destruct file as [[loaded|]|]; try case_decide;
    first [apply preserves_ret | apply preserves_modify; auto].
Qed.

(** A property that depends on none of the fields the other methods write
    holds in every reachable world as soon as a new object has it and
    [$fetchChannelOpenTx] keeps it. *)
Lemma reachable_ind_frame :
  (∀ file, P (new_world file)) →
  (∀ env channelId, preserves P (fetchChannelOpenTx env channelId)) →
  ∀ w, reachable w → P w.
Proof.
  intros Hnew Hfetch w Hw. induction Hw as [file|env m w Hw IH]; [apply Hnew|].
  destruct m; cbn [perform].
  - by apply preserves_init.
  - by apply preserves_fetchChannelsFundingTxs.
  - by apply Hfetch.
  - done.
Qed.

End frames.

(** Putting a block of a height the cache does not hold changes the cache. *)
Lemma blocksCache_put_fresh block c :
  c !! height block = None → blocksCache_put block c ≠ c.
Proof.
  intros Hfresh Heq. unfold blocksCache_put in Heq.
  pose proof (map_size_insert_None (height block) block c Hfresh) as Hins.
  destruct (decide (size (<[height block:=block]> c) ≤ BLOCKS_CACHE_MAX_SIZE))
    as [Hle|Hgt].
  - rewrite evict_small in Heq by done.
    apply (f_equal (λ m, m !! height block)) in Heq.
    by rewrite lookup_insert_eq, Hfresh in Heq.
  - apply (f_equal size) in Heq. rewrite size_evict_large in Heq by lia.
    unfold BLOCKS_CACHE_MAX_SIZE in *. lia.
Qed.

(** *** C2: the bound of the block cache *)

Lemma preserves_blocksCache_bound env channelId :
  preserves (λ w, size (blocksCache w) ≤ BLOCKS_CACHE_MAX_SIZE)
    (fetchChannelOpenTx env channelId).
Proof.
  intros w Hw.
  destruct (fetchChannelOpenTx_effect env channelId w) as (_ & [Heq|[b Heq]] & _);
    rewrite Heq; [done|by apply size_blocksCache_put].
Qed.

Lemma reachable_blocksCache_bound w :
  reachable w → size (blocksCache w) ≤ BLOCKS_CACHE_MAX_SIZE.
Proof.
  revert w.
  apply (reachable_ind_frame (λ w, size (blocksCache w) ≤ BLOCKS_CACHE_MAX_SIZE));
    try done.
  - intros file. cbn. rewrite map_size_empty. unfold BLOCKS_CACHE_MAX_SIZE. lia.
  - intros env channelId. apply preserves_blocksCache_bound.
Qed.

(** C2. In every world the object can reach, the block cache holds at most 100
    entries, and so it does after any further call of [$fetchChannelOpenTx],
    which either leaves the block cache alone or performs the insertion of
    line 142 followed by the eviction step.  For any such insertion: the cache
    holds at most 100 entries once the eviction step has run; the step does
    nothing when the insertion left at most 100 entries; and when it left more,
    the step removes exactly ten entries, which are entries of the cache at
    that moment, each of a height below the height of every entry that stays,
    and every other entry stays as it was. *)
Theorem blocksCache_bounded_evicts_lowest w :
  reachable w →
  size (blocksCache w) ≤ 100 ∧
  (∀ env channelId,
     let after := blocksCache (snd (fetchChannelOpenTx env channelId w)) in
     size after ≤ 100 ∧
     (after = blocksCache w ∨
      ∃ block, after = blocksCache_put block (blocksCache w))) ∧
  (∀ block,
     let inserted := <[height block := block]> (blocksCache w) in
     let after := blocksCache_put block (blocksCache w) in
     size after ≤ 100 ∧
     (size inserted ≤ 100 → after = inserted) ∧
     (100 < size inserted →
      ∃ evicted : list N,
        length evicted = 10 ∧ NoDup evicted ∧
        (∀ k, k ∈ evicted → is_Some (inserted !! k)) ∧
        (∀ k k', k ∈ evicted → is_Some (inserted !! k') → k' ∉ evicted →
                 (k < k')%N) ∧
        (∀ k, after !! k = if decide (k ∈ evicted) then None else inserted !! k))).
Proof.
  intros Hw. pose proof (reachable_blocksCache_bound w Hw) as Hbound.
  split_and!.
  - done.
  - intros env channelId after. split.
    + by apply (preserves_blocksCache_bound env channelId w).
    + by destruct (fetchChannelOpenTx_effect env channelId w) as (_ & ? & _).
  - intros block inserted after. split_and!.
    + by apply size_blocksCache_put.
    + intros Hsmall. by apply evict_small.
    + intros Hlarge. exists (take 10 (blocksCacheHashes inserted)).
      destruct (evicted_lowest inserted Hlarge) as (Hlen & Hnd & Hin & Hlow).
      split_and!; try done.
      intros k. unfold after, blocksCache_put. rewrite evict_large by done.
      apply lookup_delete_first10.
Qed.

(** *** One resolution of a well-formed short id, step by step *)

Lemma split_shortId H T O :
  Js.split "x" (shortId H T O) = [Js.show H; Js.show T; Js.show O].
Proof.
  change (shortId H T O)
    with (Js.show H ++ String "x" (Js.show T ++ String "x" (Js.show O)))%string.
  rewrite !JsFacts.split_app by apply JsFacts.show_no_x.
  by rewrite JsFacts.split_no_sep by apply JsFacts.show_no_x.
Qed.

Lemma blocksCache_get_show c H : blocksCache_get c (Js.show H) = c !! H.
Proof. unfold blocksCache_get. by rewrite JsFacts.index_of_key_show. Qed.

Lemma lt_nan_show (n : nat) O :
  Js.lt_nan (Z.of_nat n) (Z.succ <$> Js.parseInt_opt (Some (Js.show O)))
  = bool_decide (n < N.to_nat O + 1).
Proof.
  cbn [Js.parseInt_opt]. rewrite JsFacts.parseInt_show. cbn.
  case_bool_decide as Hlt.
  - apply Z.ltb_lt. lia.
  - apply Z.ltb_ge. lia.
Qed.

(** Up to line 153: with the id absent from [fundingTxCache], the block
    resolved and the transaction fetched and decoded, the call has put the
    block into the block cache and goes on with the test of line 155. *)
Lemma fetchChannelOpenTx_miss env channelId w H T O b raw decoded :
  channelIntegerIdToShortId env channelId = shortId H T O →
  fundingTxCache w !! shortId H T O = None →
  resolvedBlock env w H = Ok b →
  getRawTransaction (rpc env) (tx b !! N.to_nat T) None = Ok raw →
  decodeRawTransaction (rpc env) raw = Ok decoded →
  ∃ w1,
    fetchChannelOpenTx env channelId w
    = storeFundingTx (shortId H T O) (Some (Js.show O)) b (tx b !! N.to_nat T)
        decoded w1 ∧
    fundingTxCache w1 = fundingTxCache w ∧
    channelNewlyProcessed w1 = channelNewlyProcessed w ∧
    blocksCache w1 = blocksCache_put b (blocksCache w).
Proof.
  intros Hid Hmiss Hblock Hraw Hdecoded.
  unfold fetchChannelOpenTx. rewrite Hid, split_shortId.
  unfold_rpc. unfold_monad. cbn [hd lookup list_lookup].
  rewrite Hmiss, blocksCache_get_show, JsFacts.parseInt_show.
  unfold resolvedBlock in Hblock.
  destruct (blocksCache w !! H) as [cached|].
  - injection Hblock as ->. cbn -[Js.array_get evict storeFundingTx].
    rewrite JsFacts.array_get_show, Hraw. cbn -[evict storeFundingTx].
    rewrite Hdecoded. eexists. split; [reflexivity|]. done.
  - destruct (getBlockHash (rpc env) (Some (Z.of_N H))) as [hash|]; [|done].
    cbn -[Js.array_get evict storeFundingTx]. rewrite Hblock.
    cbn -[Js.array_get evict storeFundingTx].
    rewrite JsFacts.array_get_show, Hraw. cbn -[evict storeFundingTx].
    rewrite Hdecoded. eexists. split; [reflexivity|]. done.
Qed.

Lemma storeFundingTx_ok id O b id_tx (decoded : DecodedTx Num) outs out V
    (w : World Num RawTx AddrTxs) :
  vout decoded = Some outs →
  outs !! N.to_nat O = Some out →
  vout_value out = Some V →
  let record := FundingTx {| timestamp := time b; txid := id_tx; value := V |} in
  storeFundingTx id (Some (Js.show O)) b id_tx (Some decoded) w
  = (Ok (Some record),
     set_channelNewlyProcessed (S (channelNewlyProcessed w))
       (set_fundingTxCache (<[id := record]> (fundingTxCache w)) w)).
Proof.
  intros Hvout Hout Hvalue record. unfold storeFundingTx.
  rewrite Hvout, lt_nan_show, JsFacts.array_get_show, Hout, Hvalue.
  apply lookup_lt_Some in Hout.
  rewrite bool_decide_eq_false_2 by lia.
  unfold_monad. cbn. by rewrite lookup_insert_eq.
Qed.

Lemma storeFundingTx_missing id O b id_tx (decoded : option (DecodedTx Num))
    (w : World Num RawTx AddrTxs) :
  outputMissing decoded O →
  storeFundingTx id (Some (Js.show O)) b id_tx decoded w = (Ok None, w).
Proof.
  unfold outputMissing, storeFundingTx.
  destruct decoded as [decoded|]; [|done].
  destruct (vout decoded) as [outs|]; [|done].
  rewrite lt_nan_show, JsFacts.array_get_show.
  intros [Hshort|(out & Hout & Hvalue)].
  - by rewrite bool_decide_eq_true_2.
  - rewrite Hout, Hvalue. by case_bool_decide.
Qed.

(** C3, amended.  Take a channel id [H x T x O] that is not yet in
    [fundingTxCache], whose block at height [H] (the cached one, else the one
    the collaborator answers) has transaction [tT] at index [T], and let
    [tT] decode to an output list with the defined value [V] at index [O].
    Then [$fetchChannelOpenTx] returns the record
    [{timestamp: block.time, txid: tT, value: V}], has stored that record in
    [fundingTxCache] under the normalised id and has incremented the counter
    of newly processed channels by one. *)
Theorem fetchChannelOpenTx_resolves env channelId w H T O b tT raw decoded outs out V :
  channelIntegerIdToShortId env channelId = shortId H T O →
  fundingTxCache w !! shortId H T O = None →
  resolvedBlock env w H = Ok b →
  tx b !! N.to_nat T = Some tT →
  getRawTransaction (rpc env) (Some tT) None = Ok raw →
  decodeRawTransaction (rpc env) raw = Ok (Some decoded) →
  vout decoded = Some outs →
  outs !! N.to_nat O = Some out →
  vout_value out = Some V →
  let record := FundingTx {| timestamp := time b; txid := Some tT; value := V |} in
  ∃ w', fetchChannelOpenTx env channelId w = (Ok (Some record), w') ∧
        fundingTxCache w' = <[shortId H T O := record]> (fundingTxCache w) ∧
        channelNewlyProcessed w' = S (channelNewlyProcessed w).
Proof.
  intros Hid Hmiss Hblock HtT Hraw Hdecoded Hvout Hout Hvalue record.
  rewrite <-HtT in Hraw.
  destruct (fetchChannelOpenTx_miss env channelId w H T O b raw _
              Hid Hmiss Hblock Hraw Hdecoded) as (w1 & -> & Hcache & Hcount & _).
  rewrite (storeFundingTx_ok _ _ _ _ _ _ _ _ _ Hvout Hout Hvalue), HtT.
  eexists. split; [reflexivity|]. cbn. by rewrite Hcache, Hcount.
Qed.

(** C5, amended.  Take a channel id [H x T x O] that is not yet in
    [fundingTxCache], whose block is resolved and whose transaction is fetched
    and decoded.  If the decoded transaction is missing, has no output list,
    has fewer than [O + 1] outputs or has no value at output [O], then
    [$fetchChannelOpenTx] returns [null] and [fundingTxCache] is as it was. *)
Theorem fetchChannelOpenTx_output_missing env channelId w H T O b raw decoded :
  channelIntegerIdToShortId env channelId = shortId H T O →
  fundingTxCache w !! shortId H T O = None →
  resolvedBlock env w H = Ok b →
  getRawTransaction (rpc env) (tx b !! N.to_nat T) None = Ok raw →
  decodeRawTransaction (rpc env) raw = Ok decoded →
  outputMissing decoded O →
  ∃ w', fetchChannelOpenTx env channelId w = (Ok None, w') ∧
        fundingTxCache w' = fundingTxCache w ∧
        channelNewlyProcessed w' = channelNewlyProcessed w.
Proof.
  intros Hid Hmiss Hblock Hraw Hdecoded Hbad.
  destruct (fetchChannelOpenTx_miss env channelId w H T O b raw _
              Hid Hmiss Hblock Hraw Hdecoded) as (w1 & -> & Hcache & Hcount & _).
  rewrite storeFundingTx_missing by done. by exists w1.
Qed.

(** C10. When a resolution returns [null] and its block was not in the block
    cache, the collaborator has answered a block and that block has been put
    into [blocksCache] (inserted, then the eviction step run), while
    [fundingTxCache] and the counter are as they were; the block cache differs
    from what it was whenever it had no block of that height. *)
Theorem fetchChannelOpenTx_null_keeps_block env channelId w w' :
  let blockHeight :=
    hd ""%string (Js.split "x" (channelIntegerIdToShortId env channelId)) in
  fetchChannelOpenTx env channelId w = (Ok None, w') →
  blocksCache_get (blocksCache w) blockHeight = None →
  ∃ blockHash block,
    getBlockHash (rpc env) (Js.parseInt blockHeight) = Ok blockHash ∧
    getBlock (rpc env) blockHash 1 = Ok block ∧
    blocksCache w' = blocksCache_put block (blocksCache w) ∧
    fundingTxCache w' = fundingTxCache w ∧
    channelNewlyProcessed w' = channelNewlyProcessed w ∧
    (blocksCache w !! height block = None → blocksCache w' ≠ blocksCache w).
Proof.
  intros blockHeight Hrun Hmiss. revert Hrun.
  unfold fetchChannelOpenTx, storeFundingTx. unfold_rpc. unfold_monad.
  destruct (fundingTxCache w !! channelIntegerIdToShortId env channelId)
    as [hit|] eqn:Hhit; [done|].
  fold blockHeight. rewrite Hmiss.
  destruct (getBlockHash (rpc env) (Js.parseInt blockHeight)) as [hash|]; [|done].
  destruct (getBlock (rpc env) hash 1) as [block|] eqn:Hblock; [|done].
  intros Hrun. exists hash, block.
  assert (blocksCache w' = blocksCache_put block (blocksCache w) ∧
          fundingTxCache w' = fundingTxCache w ∧
          channelNewlyProcessed w' = channelNewlyProcessed w) as (Hb & Hf & Hn).
  { revert Hrun.
    repeat (cbn -[blocksCache_get evict Js.array_get Js.lt_nan Js.parseInt];
            first [ done | case_match; simplify_eq ]).
    all: intros Hrun; simplify_eq; try done.
    all: match goal with
         | Hnone : <[_:=_]> _ !! _ = None |- _ =>
             by rewrite lookup_insert_eq in Hnone
         end. }
  split_and!; try done.
  intros Hfresh. rewrite Hb. by apply blocksCache_put_fresh.
Qed.

(** *** The wallet monitor *)

Lemma paysWallet_true (out : Vout Num) :
  paysWallet out = true ↔ paysWatchedAddress out.
Proof.
  unfold paysWallet, paysWatchedAddress.
  destruct (vout_addresses out) as [addresses|].
  - rewrite bool_decide_eq_true. split; [by exists addresses|].
    by intros (? & [= <-] & ?).
  - split; [done|]. by intros (? & ? & _).
Qed.

Lemma existsb_paysWallet (outs : list (Vout Num)) :
  existsb paysWallet outs = true ↔ ∃ out, out ∈ outs ∧ paysWatchedAddress out.
Proof.
  rewrite existsb_exists. split.
  - intros (out & Hin%list_elem_of_In & Hpays%paysWallet_true). by exists out.
  - intros (out & Hin%list_elem_of_In & Hpays%paysWallet_true). by exists out.
Qed.

(** The [reduce] of lines 55-56 adds up the values of the matching outputs. *)
Lemma walletAmount_matching env outs :
  walletAmount env outs = matchingAmount env outs.
Proof.
  unfold walletAmount, matchingAmount. generalize (num_zero env) as sum.
  induction outs as [|out outs IH]; intros sum; [done|].
  rewrite filter_cons. cbn [foldl].
  destruct (paysWallet out) eqn:Hpays.
  - rewrite decide_True by done. cbn [fmap list_fmap foldl].
    unfold addValue at 1. apply IH.
  - rewrite decide_False by done. apply IH.
Qed.

Lemma elem_of_expectedSnapshot env entries (t : WalletTx Num) :
  t ∈ expectedSnapshot env entries ↔
  ∃ id details outs,
    (id, details) ∈ entries ∧
    decodedOutputs env id = Some outs ∧
    (∃ out, out ∈ outs ∧ paysWatchedAddress out) ∧
    t = {| wtx_txid := id; amount := matchingAmount env outs;
           wtx_fee := fee details; wtx_vsize := vsize details |}.
Proof.
  unfold expectedSnapshot. rewrite list_elem_of_omap. split.
  - intros ([id details] & Hin & Hsome). cbn [fst snd] in Hsome.
    destruct (decodedOutputs env id) as [outs|] eqn:Houts; [|done].
    destruct (existsb paysWallet outs) eqn:Hpays; [|done].
    injection Hsome as <-. exists id, details, outs.
    split_and!; try done. by apply existsb_paysWallet.
  - intros (id & details & outs & Hin & Houts & Hpays%existsb_paysWallet & ->).
    exists (id, details). split; [done|]. cbn [fst snd].
    by rewrite Houts, Hpays.
Qed.

(** A scan that completes has appended the expected snapshot. *)
Lemma scanMempool_Ok env entries mempoolTxs w result w1 :
  scanMempool env entries mempoolTxs w = (Ok result, w1) →
  result = mempoolTxs ++ expectedSnapshot env entries.
Proof.
  revert mempoolTxs w.
  induction entries as [|[id details] rest IH]; intros acc w.
  - cbn. intros [= <- _]. by rewrite app_nil_r.
  - cbn [scanMempool]. unfold_rpc. unfold bind at 1.
    unfold expectedSnapshot. cbn [omap list_omap fst snd].
    unfold decodedOutputs.
    destruct (getRawTransaction (rpc env) (Some id) (Some true)) as [raw|];
      [|done].
    unfold bind at 1.
    destruct (decodeRawTransaction (rpc env) raw) as [[decoded|]|]; [|done..].
    destruct (vout decoded) as [outs|]; [|done].
    destruct (existsb paysWallet outs).
    + intros ->%IH. rewrite walletAmount_matching. by rewrite <-app_assoc.
    + intros ->%IH. done.
Qed.

Lemma refreshWallet_Ok env w w1 :
  refreshWallet env w = (Ok tt, w1) →
  ∃ confirmedTxs mempoolEntries,
    getAddressTxs (rpc env) MY_LIGHTNING_WALLET_ADDRESS = Ok confirmedTxs ∧
    getRawMempool (rpc env) true = Ok mempoolEntries ∧
    walletMempoolTxs w1 = expectedSnapshot env mempoolEntries ∧
    fundingTxCache w1
    = <[MY_LIGHTNING_WALLET_ADDRESS := ConfirmedTxs confirmedTxs]> (fundingTxCache w).
Proof.
  unfold refreshWallet. unfold_rpc.
  intros (confirmed & wa & Ha & Hrest)%bind_inv_Ok.
  apply bind_inv_Ok in Hrest as (entries & wb & Hb & Hrest).
  apply bind_inv_Ok in Hrest as (txs & wc & Hc & Hrest).
  injection Ha as Ha <-. injection Hb as Hb <-.
  pose proof (preserves_scanMempool
                (λ w', fundingTxCache w' = fundingTxCache w)
                (λ _ _ H, H) env entries []
                (log_rpc (GetRawMempool true)
                   (log_rpc (GetAddressTxs MY_LIGHTNING_WALLET_ADDRESS) w))
                eq_refl) as Hframe.
  rewrite Hc in Hframe. cbn [snd] in Hframe.
  apply scanMempool_Ok in Hc as ->.
  injection Hrest as <-. exists confirmed, entries.
  split_and!; try done. cbn. by rewrite Hframe.
Qed.

Lemma refreshWallet_Throw env w e w1 :
  refreshWallet env w = (Throw e, w1) →
  walletMempoolTxs w1 = walletMempoolTxs w ∧ fundingTxCache w1 = fundingTxCache w.
Proof.
  unfold refreshWallet. unfold_rpc. unfold bind at 1.
  destruct (getAddressTxs _ _) as [confirmed|]; [|by intros [= _ <-]].
  unfold bind at 1.
  destruct (getRawMempool _ _) as [entries|]; [|by intros [= _ <-]].
  unfold bind at 1.
  set (w0 := log_rpc _ (log_rpc _ w)).
  pose proof (preserves_scanMempool
                (λ w', walletMempoolTxs w' = walletMempoolTxs w ∧
                       fundingTxCache w' = fundingTxCache w)
                (λ _ _ H, H) env entries [] w0 (conj eq_refl eq_refl)) as Hframe.
  destruct (scanMempool env entries [] w0) as [[txs|e'] w2]; [done|].
  by intros [= _ <-].
Qed.

(** The scan goes through when every listed transaction is fetched and
    decoded to an output list; it makes two RPC calls per transaction. *)
Lemma scanMempool_all_decoded env entries :
  Forall (λ entry, is_Some (decodedOutputs env entry.1)) entries →
  ∀ mempoolTxs w,
  ∃ w1, scanMempool env entries mempoolTxs w
        = (Ok (mempoolTxs ++ expectedSnapshot env entries), w1) ∧
        length (rpcLog w1) = length (rpcLog w) + 2 * length entries.
Proof.
  induction 1 as [|[id details] rest [outs Houts] _ IH]; intros acc w.
  { exists w. cbn. rewrite app_nil_r. split; [done|lia]. }
  assert (∃ result w1,
            scanMempool env ((id, details) :: rest) acc w = (Ok result, w1) ∧
            length (rpcLog w1) = length (rpcLog w) + 2 * length ((id, details) :: rest))
    as (result & w1 & Hrun & Hlen).
  { cbn [scanMempool]. unfold_rpc. unfold bind at 1.
    cbn [fst] in Houts. unfold decodedOutputs in Houts.
    destruct (getRawTransaction (rpc env) (Some id) (Some true)) as [raw|];
      [|done].
    unfold bind at 1.
    destruct (decodeRawTransaction (rpc env) raw) as [[decoded|]|]; [|done..].
    rewrite Houts.
    destruct (existsb paysWallet outs).
    - edestruct IH as (w1 & -> & Hlen). eexists _, _. split; [done|].
      rewrite Hlen. cbn. rewrite !length_app. cbn. lia.
    - edestruct IH as (w1 & -> & Hlen). eexists _, _. split; [done|].
      rewrite Hlen. cbn. rewrite !length_app. cbn. lia. }
  exists w1. split; [|done]. rewrite Hrun.
  by apply scanMempool_Ok in Hrun as ->.
Qed.

(** The scan throws as soon as one listed transaction cannot be fetched, or
    cannot be decoded, or decodes to something without an output list. *)
Lemma scanMempool_bad_entry env entries :
  Exists (λ entry, decodedOutputs env entry.1 = None) entries →
  ∀ mempoolTxs w, ∃ e w1, scanMempool env entries mempoolTxs w = (Throw e, w1).
Proof.
  induction entries as [|[id details] rest IH]; intros Hbad acc w.
  { by apply Exists_nil in Hbad. }
  cbn [scanMempool]. unfold_rpc. unfold bind at 1.
  apply Exists_cons in Hbad. cbn [fst] in Hbad. unfold decodedOutputs in Hbad.
  destruct (getRawTransaction (rpc env) (Some id) (Some true)) as [raw|];
    [|by eexists _, _].
  unfold bind at 1.
  destruct (decodeRawTransaction (rpc env) raw) as [[decoded|]|];
    [|by eexists _, _..].
  destruct (vout decoded) as [outs|]; [|by eexists _, _].
  destruct Hbad as [?|Hbad]; [done|].
  destruct (existsb paysWallet outs); by apply IH.
Qed.

Lemma refreshWallet_all_decoded env w confirmedTxs mempoolEntries :
  getAddressTxs (rpc env) MY_LIGHTNING_WALLET_ADDRESS = Ok confirmedTxs →
  getRawMempool (rpc env) true = Ok mempoolEntries →
  Forall (λ entry, is_Some (decodedOutputs env entry.1)) mempoolEntries →
  ∃ w', refreshWallet env w = (Ok tt, w') ∧
        walletMempoolTxs w' = expectedSnapshot env mempoolEntries ∧
        fundingTxCache w'
        = <[MY_LIGHTNING_WALLET_ADDRESS := ConfirmedTxs confirmedTxs]>
            (fundingTxCache w) ∧
        length (rpcLog w') = length (rpcLog w) + 2 + 2 * length mempoolEntries.
Proof.
  intros Haddr Hpool Hall.
  assert (∃ w', refreshWallet env w = (Ok tt, w') ∧
                length (rpcLog w')
                = length (rpcLog w) + 2 + 2 * length mempoolEntries)
    as (w' & Hrun & Hlen).
  { unfold refreshWallet. unfold_rpc. unfold bind at 1. rewrite Haddr.
    unfold bind at 1. rewrite Hpool. unfold bind at 1.
    destruct (scanMempool_all_decoded env mempoolEntries Hall []
                (log_rpc (GetRawMempool true)
                   (log_rpc (GetAddressTxs MY_LIGHTNING_WALLET_ADDRESS) w)))
      as (w1 & -> & Hlen).
    eexists. split; [reflexivity|]. cbn. rewrite Hlen. cbn.
    rewrite !length_app. cbn. lia. }
  exists w'. split; [done|].
  apply refreshWallet_Ok in Hrun as (confirmed & entries & Ha & Hb & Hsnap & Hcache).
  rewrite Haddr in Ha. injection Ha as <-.
  rewrite Hpool in Hb. injection Hb as <-. done.
Qed.

(** A refresh throws exactly when the collaborator does not answer all of
    it. *)
Lemma refreshWallet_unanswered env w :
  refreshAnswers env = None → ∃ e w1, refreshWallet env w = (Throw e, w1).
Proof.
  unfold refreshAnswers, refreshWallet. unfold_rpc. unfold bind at 1.
  destruct (getAddressTxs _ _) as [confirmed|]; [|by eexists _, _].
  unfold bind at 1.
  destruct (getRawMempool _ _) as [entries|]; [|by eexists _, _].
  case_decide as Hall; [done|]. intros _.
  apply not_Forall_Exists in Hall; [|apply _].
  unfold bind at 1.
  destruct (scanMempool_bad_entry env entries) with (mempoolTxs := @nil (WalletTx Num))
    (w := log_rpc (GetRawMempool true)
            (log_rpc (GetAddressTxs MY_LIGHTNING_WALLET_ADDRESS) w))
    as (e & w1 & ->).
  - eapply Exists_impl; [exact Hall|]. intros entry Hnone. cbn in Hnone.
    destruct (decodedOutputs env entry.1); [|done].
    exfalso. apply Hnone. by eexists.
  - by eexists _, _.
Qed.

(** C9. [$monitorLightningWallet] always returns.  When the collaborator
    answers the whole refresh (the confirmed history, the mempool listing, and
    every listed transaction fetched and decoded to an output list),
    [walletMempoolTxs] is afterwards the expected snapshot of the listing:
    whatever it held before is gone, and it holds exactly, in the order of the
    listing, one entry for every listed transaction whose decoded outputs
    include one that names the watched address, with the sum of the values of
    those outputs as amount and the fee and vsize of the listing.  When the
    collaborator does not answer all of it, so that an exception occurs during
    the refresh, [walletMempoolTxs] and [fundingTxCache] are as they were. *)
Theorem monitorLightningWallet_snapshot env w :
  ∃ w', monitorLightningWallet env w = (Ok tt, w') ∧
    match refreshAnswers env with
    | Some (confirmedTxs, mempoolEntries) =>
      walletMempoolTxs w' = expectedSnapshot env mempoolEntries ∧
      ∀ t, t ∈ walletMempoolTxs w' ↔
           ∃ id details outs,
             (id, details) ∈ mempoolEntries ∧
             decodedOutputs env id = Some outs ∧
             (∃ out, out ∈ outs ∧ paysWatchedAddress out) ∧
             t = {| wtx_txid := id; amount := matchingAmount env outs;
                    wtx_fee := fee details; wtx_vsize := vsize details |}
    | None =>
      walletMempoolTxs w' = walletMempoolTxs w ∧
      fundingTxCache w' = fundingTxCache w
    end.
Proof.
  destruct (refreshAnswers env) as [[confirmedTxs mempoolEntries]|] eqn:Hanswers.
  - unfold refreshAnswers in Hanswers.
    destruct (getAddressTxs _ _) as [confirmed|] eqn:Haddr; [|done].
    destruct (getRawMempool _ _) as [entries|] eqn:Hpool; [|done].
    case_decide as Hall; [|done]. injection Hanswers as -> ->.
    destruct (refreshWallet_all_decoded env w _ _ Haddr Hpool Hall)
      as (w' & Hrun & Hsnap & _).
    exists w'. unfold monitorLightningWallet, try_catch. rewrite Hrun.
    split_and!; try done.
    intros t. rewrite Hsnap. apply elem_of_expectedSnapshot.
  - destruct (refreshWallet_unanswered env w Hanswers) as (e & w1 & Hrun).
    exists w1. unfold monitorLightningWallet, try_catch. rewrite Hrun.
    split; [done|]. by eapply refreshWallet_Throw.
Qed.

(** *** The batch driver *)

(** The timers and the reset of the counter never fail. *)
Lemma indexChannels_unfold env channelIds w :
  indexChannels env channelIds w
  = fetchLoop env (clock env (clockReads w)) channelIds
      (clock env (S (clockReads w))) (clock env (S (S (clockReads w)))) 0
      (set_channelNewlyProcessed 0 (tick (tick (tick w)))).
Proof. reflexivity. Qed.

Lemma finalFlush_run w :
  finalFlush w
  = (Ok tt, if decide (0 < channelNewlyProcessed w) then write_cacheFile w else w).
Proof. unfold finalFlush, bind, gets, writeFile, modify, ret. by case_decide. Qed.

Lemma monitorLightningWallet_returns env w :
  ∃ w', monitorLightningWallet env w = (Ok tt, w').
Proof.
  unfold monitorLightningWallet, try_catch.
  destruct (refreshWallet env w) as [[[]|e] w1]; by eexists.
Qed.

(** The shape of a call that found the guard clear: the loop ran, then the
    final flush, then the wallet monitor, then the guard was cleared; or the
    loop threw and nothing was run after it. *)
Lemma fetchChannelsFundingTxs_run env channelIds w :
  running w = false →
  match indexChannels env channelIds (set_running true w) with
  | (Ok _, w1) =>
    ∃ w2, monitorLightningWallet env (snd (finalFlush w1)) = (Ok tt, w2) ∧
          fetchChannelsFundingTxs env channelIds w = (Ok tt, set_running false w2)
  | (Throw e, w1) => fetchChannelsFundingTxs env channelIds w = (Throw e, w1)
  end.
Proof.
  intros Hidle. unfold fetchChannelsFundingTxs, bind, gets, modify.
  rewrite Hidle.
  destruct (indexChannels env channelIds (set_running true w)) as [[[]|e] w1];
    [|done].
  rewrite finalFlush_run. cbn [snd].
  destruct (monitorLightningWallet_returns env
              (if decide (0 < channelNewlyProcessed w1)
               then write_cacheFile w1 else w1)) as [w2 Hw2].
  exists w2. split; [done|]. by rewrite Hw2.
Qed.

(** A batch whose resolutions all return leaves by clearing the guard. *)
Lemma fetchChannelsFundingTxs_Ok_idle env channelIds w w' :
  running w = false →
  fetchChannelsFundingTxs env channelIds w = (Ok tt, w') →
  running w' = false.
Proof.
  intros Hidle Hrun.
  pose proof (fetchChannelsFundingTxs_run env channelIds w Hidle) as Hshape.
  destruct (indexChannels env channelIds (set_running true w)) as [[[]|e] w1].
  - destruct Hshape as (w2 & _ & Heq). rewrite Heq in Hrun.
    by injection Hrun as <-.
  - by rewrite Hshape in Hrun.
Qed.

Lemma preserves_running_fetchChannelOpenTx env channelId flag :
  preserves (λ w, running w = flag) (fetchChannelOpenTx env channelId).
Proof.
  intros w Hw.
  destruct (fetchChannelOpenTx_effect env channelId w) as ((Hr & _) & _).
  by rewrite Hr.
Qed.

(** A batch in which a resolution throws leaves with the guard still set,
    and every later call finds it set. *)
Lemma fetchChannelsFundingTxs_Throw_stuck env channelIds w e w' :
  running w = false →
  fetchChannelsFundingTxs env channelIds w = (Throw e, w') →
  running w' = true.
Proof.
  intros Hidle Hrun.
  pose proof (fetchChannelsFundingTxs_run env channelIds w Hidle) as Hshape.
  assert (running (snd (indexChannels env channelIds (set_running true w))) = true)
    as Hstill.
  { rewrite indexChannels_unfold.
    apply (preserves_fetchLoop (λ w, running w = true)); try done.
    intros channelId _. apply preserves_running_fetchChannelOpenTx. }
  destruct (indexChannels env channelIds (set_running true w)) as [[[]|e'] w1].
  - destruct Hshape as (w2 & _ & Heq). by rewrite Heq in Hrun.
  - rewrite Hshape in Hrun. by injection Hrun as _ <-.
Qed.

(** A call of [$fetchChannelsFundingTxs] that found the guard clear and
    whose loop returned, that is, in which no resolution threw, returns with
    [running] cleared, whatever the collaborator answers to the refresh of the
    wallet monitor: a refresh that throws is caught inside
    [$monitorLightningWallet]. *)
Lemma fetchChannelsFundingTxs_clears_guard env channelIds w w1 :
  running w = false →
  indexChannels env channelIds (set_running true w) = (Ok tt, w1) →
  ∃ w', fetchChannelsFundingTxs env channelIds w = (Ok tt, w') ∧
        running w' = false.
Proof.
  intros Hidle Hloop.
  pose proof (fetchChannelsFundingTxs_run env channelIds w Hidle) as Hshape.
  rewrite Hloop in Hshape. destruct Hshape as (w2 & _ & Hrun).
  by exists (set_running false w2).
Qed.

Lemma preserves_counts_from env channelId cache0 :
  preserves (counts_from cache0) (fetchChannelOpenTx env channelId).
Proof.
  intros w [Hsub Hsize]. unfold counts_from.
  destruct (fetchChannelOpenTx_effect env channelId w)
    as (_ & _ & [[-> ->]|(Hmiss & record & -> & -> & _)]); [done|].
  split.
  - apply insert_subseteq_r; [|done]. by eapply lookup_weaken_None.
  - rewrite map_size_insert_None by done. lia.
Qed.

Lemma counts_from_zero cache0 w :
  counts_from cache0 w →
  (channelNewlyProcessed w = 0 ↔ fundingTxCache w = cache0).
Proof.
  intros [Hsub Hsize]. split.
  - intros Hzero. symmetry. apply map_subseteq_size_eq; [done|lia].
  - intros Heq. rewrite Heq in Hsize. lia.
Qed.

(** A loop over ids that are all in [fundingTxCache] returns, makes no RPC
    call and changes neither cache nor the counter. *)
Lemma fetchLoop_all_hits env globalTimer channelIds :
  ∀ cacheTimer loggerTimer n w,
  Forall (λ id, is_Some (fundingTxCache w !! channelIntegerIdToShortId env id))
    channelIds →
  ∃ w1,
    fetchLoop env globalTimer channelIds cacheTimer loggerTimer n w = (Ok tt, w1) ∧
    fundingTxCache w1 = fundingTxCache w ∧
    channelNewlyProcessed w1 = channelNewlyProcessed w ∧
    rpcLog w1 = rpcLog w ∧
    blocksCache w1 = blocksCache w.
Proof.
  induction channelIds as [|channelId rest IH]; intros cacheTimer loggerTimer n w Hhits.
  { exists w. by split_and!. }
  apply Forall_cons in Hhits as [[hit Hhit] Hrest].
  cbn [fetchLoop].
  rewrite (bind_Ok _ _ _ _ _ (fetchChannelOpenTx_hit_run env w channelId hit Hhit)).
  unfold now, writeFile. unfold_monad.
  destruct (LOGGER_UPDATE_INTERVAL env
            <? roundedSeconds env (clock env (clockReads w)) loggerTimer)%Z;
    cbn [tick clockReads].
  - destruct (60 <? roundedSeconds env (clock env (S (S (S (clockReads w)))))
                      cacheTimer)%Z.
    + edestruct IH as (w1 & -> & Hf & Hn & Hr & Hb); [exact Hrest|].
      exists w1. by split_and!.
    + edestruct IH as (w1 & -> & Hf & Hn & Hr & Hb); [exact Hrest|].
      exists w1. by split_and!.
  - destruct (60 <? roundedSeconds env (clock env (S (clockReads w)))
                      cacheTimer)%Z.
    + edestruct IH as (w1 & -> & Hf & Hn & Hr & Hb); [exact Hrest|].
      exists w1. by split_and!.
    + edestruct IH as (w1 & -> & Hf & Hn & Hr & Hb); [exact Hrest|].
      exists w1. by split_and!.
Qed.

(** The loop never takes a reading of the clock back. *)
Lemma fetchLoop_clockReads_grow env globalTimer channelIds cacheTimer loggerTimer n w :
  clockReads w
  ≤ clockReads (snd (fetchLoop env globalTimer channelIds cacheTimer loggerTimer n w)).
Proof.
  apply (preserves_fetchLoop (λ w', clockReads w ≤ clockReads w')); try done.
  - intros w0 Hw0. cbn. lia.
  - intros channelId _ w0 Hw0.
    destruct (fetchChannelOpenTx_effect env channelId w0)
      as ((_ & _ & _ & _ & Hc) & _).
    by rewrite Hc.
Qed.

(** A run of the loop that returns writes nothing when none of the readings
    of the clock it makes is more than 60 rounded seconds after the value of
    the checkpoint timer. *)
Lemma fetchLoop_not_due env globalTimer channelIds :
  ∀ cacheTimer loggerTimer n w result w',
  fetchLoop env globalTimer channelIds cacheTimer loggerTimer n w
  = (Ok result, w') →
  (∀ i, clockReads w ≤ i → i < clockReads w' →
        (roundedSeconds env (clock env i) cacheTimer ≤ 60)%Z) →
  flushes w' = flushes w.
Proof.
  induction channelIds as [|channelId rest IH];
    intros cacheTimer loggerTimer n w result w' Hrun Hclock.
  { cbn in Hrun. by injection Hrun as _ <-. }
  revert Hrun. cbn [fetchLoop]. unfold bind at 1.
  destruct (fetchChannelOpenTx_effect env channelId w)
    as ((_ & _ & _ & Hfl & Hc) & _).
  destruct (fetchChannelOpenTx env channelId w) as [[hit|e] w0]; [|done].
  cbn [snd] in Hfl, Hc. unfold now, writeFile. unfold_monad.
  assert (∀ wa : World Num RawTx AddrTxs,
            flushes wa = flushes w → clockReads w ≤ clockReads wa →
            ∀ loggerTimer',
            (let (r, w2) :=
               (if (60 <? roundedSeconds env (clock env (clockReads wa)) cacheTimer)%Z
                then λ w1, (Ok (clock env (clockReads (write_cacheFile w1))),
                            tick (write_cacheFile w1))
                else λ w1, (Ok cacheTimer, w1)) (tick wa) in
             match r with
             | Ok cacheTimer' =>
                 fetchLoop env globalTimer rest cacheTimer' loggerTimer' (S n) w2
             | Throw e => (Throw e, w2)
             end) = (Ok result, w') →
            flushes w' = flushes w) as Hcheck.
  { intros wa Hwa Hreads loggerTimer'.
    destruct (60 <? roundedSeconds env (clock env (clockReads wa)) cacheTimer)%Z
      eqn:Hdue.
    - intros Hrest. exfalso. apply Z.ltb_lt in Hdue.
      pose proof (fetchLoop_clockReads_grow env globalTimer rest
                    (clock env (clockReads (write_cacheFile (tick wa))))
                    loggerTimer' (S n) (tick (write_cacheFile (tick wa))))
        as Hgrow.
      rewrite Hrest in Hgrow. cbn in Hgrow.
      specialize (Hclock (clockReads wa)). lia.
    - intros Hrest. rewrite <-Hwa.
      pose proof (fetchLoop_clockReads_grow env globalTimer rest cacheTimer
                    loggerTimer' (S n) (tick wa)) as Hgrow.
      rewrite Hrest in Hgrow. cbn in Hgrow.
      change (flushes wa) with (flushes (tick wa)).
      eapply IH; [exact Hrest|]. intros i Hlo Hhi. cbn in Hlo.
      apply Hclock; lia. }
  destruct (LOGGER_UPDATE_INTERVAL env <? roundedSeconds env _ loggerTimer)%Z.
  - apply (Hcheck (tick (tick (tick w0)))); [done|cbn; lia].
  - apply (Hcheck (tick w0)); [done|cbn; lia].
Qed.

(** C6, amended.  Take a call of [$fetchChannelsFundingTxs] that found the
    guard clear.  If it returns, then its loop returned in some world [w1],
    where the counter is the number of records the loop added to
    [fundingTxCache]; the call then wrote the cache file once more, with the
    cache as the loop left it, if the loop added a record, and did not write it
    again if the loop added none.  If every id of the batch is in
    [fundingTxCache], the call does return, makes no RPC call in its loop,
    adds no record and performs no final flush; it performs no flush at all
    when none of the readings of the clock that its loop makes is more than 60
    rounded seconds after the reading that started the checkpoint timer
    (line 85), that is, when no checkpoint falls due while it runs. *)
Theorem fetchChannelsFundingTxs_final_flush env channelIds w :
  running w = false →
  (∀ w', fetchChannelsFundingTxs env channelIds w = (Ok tt, w') →
     ∃ w1,
       indexChannels env channelIds (set_running true w) = (Ok tt, w1) ∧
       fundingTxCache w ⊆ fundingTxCache w1 ∧
       channelNewlyProcessed w1 + size (fundingTxCache w) = size (fundingTxCache w1) ∧
       (fundingTxCache w1 ≠ fundingTxCache w →
        0 < channelNewlyProcessed w1 ∧
        flushes w' = flushes w1 ++ [fundingTxCache w1]) ∧
       (fundingTxCache w1 = fundingTxCache w →
        channelNewlyProcessed w1 = 0 ∧ flushes w' = flushes w1)) ∧
  (Forall (λ id, is_Some (fundingTxCache w !! channelIntegerIdToShortId env id))
     channelIds →
   ∃ w1 w',
     indexChannels env channelIds (set_running true w) = (Ok tt, w1) ∧
     fetchChannelsFundingTxs env channelIds w = (Ok tt, w') ∧
     rpcLog w1 = rpcLog w ∧
     fundingTxCache w1 = fundingTxCache w ∧
     channelNewlyProcessed w1 = 0 ∧
     flushes w' = flushes w1 ∧
     ((∀ i, S (clockReads w) < i → i < clockReads w1 →
            (roundedSeconds env (clock env i) (clock env (S (clockReads w))) ≤ 60)%Z) →
      flushes w' = flushes w)).
Proof.
  intros Hidle.
  pose proof (fetchChannelsFundingTxs_run env channelIds w Hidle) as Hshape.
  assert (∀ w1 w2,
            monitorLightningWallet env (snd (finalFlush w1)) = (Ok tt, w2) →
            flushes (set_running false w2)
            = flushes w1 ++ (if decide (0 < channelNewlyProcessed w1)
                             then [fundingTxCache w1] else [])) as Hflush.
  { intros w1 w2 Hmon. rewrite finalFlush_run in Hmon. cbn [snd] in Hmon.
    pose proof (preserves_monitorLightningWallet
                  (λ w', flushes w' = flushes
                           (if decide (0 < channelNewlyProcessed w1)
                            then write_cacheFile w1 else w1))
                  (λ _ _ H, H) (λ _ _ H, H) (λ _ _ H, H) env _ eq_refl) as Hkeep.
    rewrite Hmon in Hkeep. cbn [snd] in Hkeep. cbn [set_running flushes].
    rewrite Hkeep. case_decide; [done|by rewrite app_nil_r]. }
  split.
  - intros w' Hrun.
    assert (counts_from (fundingTxCache w)
              (snd (indexChannels env channelIds (set_running true w)))) as Hcount.
    { rewrite indexChannels_unfold.
      apply (preserves_fetchLoop (counts_from (fundingTxCache w))); try done.
      intros channelId _. apply preserves_counts_from. }
    destruct (indexChannels env channelIds (set_running true w)) as [[[]|e] w1];
      [|by rewrite Hshape in Hrun].
    destruct Hshape as (w2 & Hmon & Heq). rewrite Heq in Hrun.
    injection Hrun as Hrun. subst w'. cbn [snd] in Hcount.
    pose proof (counts_from_zero _ _ Hcount) as Hzero.
    destruct Hcount as [Hsub Hsize].
    exists w1. split_and!; try done.
    + intros Hnew. assert (0 < channelNewlyProcessed w1) as Hpos.
      { destruct (decide (channelNewlyProcessed w1 = 0)) as [Hz|]; [|lia].
        exfalso. by apply Hnew, Hzero. }
      split; [done|]. rewrite (Hflush _ _ Hmon). by rewrite decide_True.
    + intros Hsame. apply Hzero in Hsame. split; [done|].
      rewrite (Hflush _ _ Hmon). rewrite decide_False by lia. apply app_nil_r.
  - intros Hhits. revert Hshape. rewrite indexChannels_unfold.
    destruct (fetchLoop_all_hits env
                (clock env (clockReads (set_running true w))) channelIds
                (clock env (S (clockReads (set_running true w))))
                (clock env (S (S (clockReads (set_running true w))))) 0
                (set_channelNewlyProcessed 0 (tick (tick (tick (set_running true w)))))
                Hhits)
      as (w1 & Hloop & Hf & Hn & Hr & _).
    rewrite Hloop.
    intros (w2 & Hmon & Heq). exists w1, (set_running false w2).
    cbn in Hn, Hf, Hr.
    assert (flushes (set_running false w2) = flushes w1) as Hnone.
    { rewrite (Hflush _ _ Hmon). rewrite decide_False by lia. apply app_nil_r. }
    split_and!; try done.
    intros Hclock. rewrite Hnone.
    rewrite (fetchLoop_not_due _ _ _ _ _ _ _ _ _ Hloop); [done|].
    intros i Hlo Hhi. cbn in Hlo. apply Hclock; [lia|done].
Qed.

(** *** The checkpoint *)

(** The loop only ever adds to the list of writes. *)
Lemma fetchLoop_flushes_grow env globalTimer channelIds cacheTimer loggerTimer n w :
  ∃ written,
    flushes (snd (fetchLoop env globalTimer channelIds cacheTimer loggerTimer n w))
    = flushes w ++ written.
Proof.
  apply (preserves_fetchLoop (λ w', ∃ written, flushes w' = flushes w ++ written)).
  - done.
  - intros _ w0 [written Hw0]. exists (written ++ [fundingTxCache w0]).
    cbn. by rewrite Hw0, <-app_assoc.
  - intros channelId _ w0 Hw0.
    destruct (fetchChannelOpenTx_effect env channelId w0)
      as ((_ & _ & _ & Hfl & _) & _).
    by rewrite Hfl.
  - exists []. by rewrite app_nil_r.
Qed.

(** The first items of a run are a run of their own. *)
Lemma fetchLoop_app env globalTimer items later :
  ∀ cacheTimer loggerTimer n w result w',
  fetchLoop env globalTimer (items ++ later) cacheTimer loggerTimer n w
  = (Ok result, w') →
  ∃ w1 cacheTimer1 loggerTimer1 n1,
    fetchLoop env globalTimer items cacheTimer loggerTimer n w = (Ok tt, w1) ∧
    fetchLoop env globalTimer later cacheTimer1 loggerTimer1 n1 w1
    = (Ok result, w').
Proof.
  induction items as [|channelId items IH];
    intros cacheTimer loggerTimer n w result w' Hrun.
  { by exists w, cacheTimer, loggerTimer, n. }
  cbn [app fetchLoop] in Hrun |- *.
  apply bind_inv_Ok in Hrun as (hit & wa & Ha & Hrun).
  apply bind_inv_Ok in Hrun as (t & wb & Hb & Hrun).
  apply bind_inv_Ok in Hrun as (loggerTimer' & wc & Hc & Hrun).
  apply bind_inv_Ok in Hrun as (t' & wd & Hd & Hrun).
  apply bind_inv_Ok in Hrun as (cacheTimer' & we & He & Hrun).
  apply IH in Hrun as (w1 & cacheTimer1 & loggerTimer1 & n1 & Hitems & Hlater).
  exists w1, cacheTimer1, loggerTimer1, n1. split; [|done].
  rewrite (bind_Ok _ _ _ _ _ Ha), (bind_Ok _ _ _ _ _ Hb),
    (bind_Ok _ _ _ _ _ Hc), (bind_Ok _ _ _ _ _ Hd), (bind_Ok _ _ _ _ _ He).
  done.
Qed.

(** A run of the loop over at least one id that returns without having
    written a checkpoint ends with at most 60 rounded seconds between the
    checkpoint timer and the last reading of the clock, the one of line 105
    for the last item. *)
Lemma fetchLoop_quiet env globalTimer channelIds :
  ∀ cacheTimer loggerTimer n w result w',
  channelIds ≠ [] →
  fetchLoop env globalTimer channelIds cacheTimer loggerTimer n w
  = (Ok result, w') →
  flushes w' = flushes w →
  (roundedSeconds env (clock env (pred (clockReads w'))) cacheTimer ≤ 60)%Z.
Proof.
  induction channelIds as [|channelId rest IH];
    intros cacheTimer loggerTimer n w result w' Hne Hrun Hquiet; [done|].
  revert Hrun. cbn [fetchLoop]. unfold bind at 1.
  destruct (fetchChannelOpenTx_effect env channelId w)
    as ((_ & _ & _ & Hfl & _) & _).
  destruct (fetchChannelOpenTx env channelId w) as [[hit|e] w0]; [|done].
  cbn [snd] in Hfl. unfold now, writeFile. unfold_monad.
  set (t1 := clock env (clockReads w0)).
  assert (∀ wa : World Num RawTx AddrTxs, flushes wa = flushes w →
            ∀ loggerTimer',
            (let (r, w2) :=
               (if (60 <? roundedSeconds env (clock env (clockReads wa)) cacheTimer)%Z
                then λ w1, (Ok (clock env (clockReads (write_cacheFile w1))),
                            tick (write_cacheFile w1))
                else λ w1, (Ok cacheTimer, w1)) (tick wa) in
             match r with
             | Ok cacheTimer' =>
                 fetchLoop env globalTimer rest cacheTimer' loggerTimer' (S n) w2
             | Throw e => (Throw e, w2)
             end) = (Ok result, w') →
            (roundedSeconds env (clock env (pred (clockReads w'))) cacheTimer ≤ 60)%Z)
    as Hcheck.
  { intros wa Hwa loggerTimer'.
    destruct (60 <? roundedSeconds env (clock env (clockReads wa)) cacheTimer)%Z
      eqn:Hdue.
    - intros Hrest. exfalso.
      destruct (fetchLoop_flushes_grow env globalTimer rest
                  (clock env (clockReads (write_cacheFile (tick wa))))
                  loggerTimer' (S n) (tick (write_cacheFile (tick wa))))
        as [written Hgrow].
      rewrite Hrest in Hgrow. cbn in Hgrow.
      rewrite Hquiet, Hwa, <-app_assoc in Hgrow.
      apply (f_equal length) in Hgrow. rewrite !length_app in Hgrow.
      cbn in Hgrow. lia.
    - apply Z.ltb_ge in Hdue. destruct rest as [|next rest'].
      + cbn. by intros [= _ <-].
      + intros Hrest. eapply IH; [done|exact Hrest|]. by rewrite Hquiet. }
  destruct (LOGGER_UPDATE_INTERVAL env <? roundedSeconds env t1 loggerTimer)%Z.
  - apply (Hcheck (tick (tick (tick w0)))). done.
  - apply (Hcheck (tick w0)). done.
Qed.

(** One round of the loop whose resolution returned: the clock is read for
    the logger, twice more when progress is logged, and then for the test of
    line 105.  When more than 60 rounded seconds lie between that reading and
    the checkpoint timer, [fundingTxCache] as it is then is written and the
    timer becomes the next reading of the clock; otherwise nothing is written
    and the timer stays. *)
Lemma fetchLoop_round env globalTimer channelId rest cacheTimer loggerTimer n w hit wa :
  fetchChannelOpenTx env channelId w = (Ok hit, wa) →
  ∃ k loggerTimer' w2,
    (k = S (clockReads wa) ∨ k = S (S (S (clockReads wa)))) ∧
    fundingTxCache w2 = fundingTxCache wa ∧
    if (60 <? roundedSeconds env (clock env k) cacheTimer)%Z
    then
      fetchLoop env globalTimer (channelId :: rest) cacheTimer loggerTimer n w
      = fetchLoop env globalTimer rest (clock env (S k)) loggerTimer' (S n) w2 ∧
      flushes w2 = flushes wa ++ [fundingTxCache wa] ∧
      cacheFile w2 = Some (Json (fundingTxCache wa)) ∧
      clockReads w2 = S (S k)
    else
      fetchLoop env globalTimer (channelId :: rest) cacheTimer loggerTimer n w
      = fetchLoop env globalTimer rest cacheTimer loggerTimer' (S n) w2 ∧
      flushes w2 = flushes wa ∧
      cacheFile w2 = cacheFile wa ∧
      clockReads w2 = S k.
Proof.
  intros Hfetch. cbn [fetchLoop]. rewrite (bind_Ok _ _ _ _ _ Hfetch).
  unfold now, writeFile. unfold_monad.
  destruct (LOGGER_UPDATE_INTERVAL env
            <? roundedSeconds env (clock env (clockReads wa)) loggerTimer)%Z;
    cbn [tick clockReads].
  - exists (S (S (S (clockReads wa)))).
    destruct (60 <? roundedSeconds env (clock env (S (S (S (clockReads wa)))))
                      cacheTimer)%Z.
    + eexists _, _. split_and!; [by right| |reflexivity| | |]; reflexivity.
    + eexists _, _. split_and!; [by right| |reflexivity| | |]; reflexivity.
  - exists (S (clockReads wa)).
    destruct (60 <? roundedSeconds env (clock env (S (clockReads wa)))
                      cacheTimer)%Z.
    + eexists _, _. split_and!; [by left| |reflexivity| | |]; reflexivity.
    + eexists _, _. split_and!; [by left| |reflexivity| | |]; reflexivity.
Qed.

(** C7, amended.  Take a run of the loop that returns, from any world and
    with any value [cacheTimer] of the checkpoint timer.  Its first round
    reads the clock at line 105, and the test there looks at nothing but that
    reading and the timer: when more than 60 rounded seconds lie between them,
    the round writes the cache file with [fundingTxCache] as it is at that
    moment, whether or not anything was added to it, the timer becomes the
    reading of the clock taken right after the write, and the run goes on from
    there; when at most 60 do, the round writes nothing and the run goes on
    with the timer as it was.  Every later round is the first round of the
    run that is left.  So, for any item of the run: if no checkpoint has been
    written from the start of the run to the end of that item, then at most 60
    rounded seconds lie between [cacheTimer] and the reading of line 105 for
    that item.  The loop of a batch starts with the second reading of the
    clock that the batch makes (line 85) as checkpoint timer. *)
Theorem fetchLoop_checkpoint_when_due env globalTimer channelId items later :
  ∀ cacheTimer loggerTimer n w result w',
  fetchLoop env globalTimer ((channelId :: items) ++ later) cacheTimer loggerTimer n w
  = (Ok result, w') →
  (∃ hit wa k loggerTimer1 w2,
     fetchChannelOpenTx env channelId w = (Ok hit, wa) ∧
     (k = S (clockReads wa) ∨ k = S (S (S (clockReads wa)))) ∧
     fundingTxCache w2 = fundingTxCache wa ∧
     if (60 <? roundedSeconds env (clock env k) cacheTimer)%Z
     then
       flushes w2 = flushes wa ++ [fundingTxCache wa] ∧
       cacheFile w2 = Some (Json (fundingTxCache wa)) ∧
       clockReads w2 = S (S k) ∧
       fetchLoop env globalTimer (items ++ later) (clock env (S k)) loggerTimer1
         (S n) w2 = (Ok result, w')
     else
       flushes w2 = flushes wa ∧
       cacheFile w2 = cacheFile wa ∧
       clockReads w2 = S k ∧
       fetchLoop env globalTimer (items ++ later) cacheTimer loggerTimer1
         (S n) w2 = (Ok result, w')) ∧
  (∃ w1,
     fetchLoop env globalTimer (channelId :: items) cacheTimer loggerTimer n w
     = (Ok tt, w1) ∧
     (flushes w1 = flushes w →
      (roundedSeconds env (clock env (pred (clockReads w1))) cacheTimer ≤ 60)%Z)) ∧
  (∀ channelIds w0,
     indexChannels env channelIds w0
     = fetchLoop env (clock env (clockReads w0)) channelIds
         (clock env (S (clockReads w0))) (clock env (S (S (clockReads w0)))) 0
         (set_channelNewlyProcessed 0 (tick (tick (tick w0))))).
Proof.
  intros cacheTimer loggerTimer n w result w' Hrun. split; [|split; [|done]].
  - destruct (fetchChannelOpenTx env channelId w) as [[hit|e] wa] eqn:Hfetch.
    2:{ cbn [app fetchLoop] in Hrun. by rewrite (bind_Throw _ _ _ _ _ Hfetch) in Hrun. }
    destruct (fetchLoop_round env globalTimer channelId (items ++ later)
                cacheTimer loggerTimer n w hit wa Hfetch)
      as (k & loggerTimer1 & w2 & Hk & Hcache & Hround).
    exists hit, wa, k, loggerTimer1, w2. split_and!; try done.
    cbn [app] in Hrun.
    destruct (60 <? roundedSeconds env (clock env k) cacheTimer)%Z.
    + destruct Hround as (Heq & ? & ? & ?). rewrite Heq in Hrun. done.
    + destruct Hround as (Heq & ? & ? & ?). rewrite Heq in Hrun. done.
  - apply fetchLoop_app in Hrun as (w1 & _ & _ & _ & Hitems & _).
    exists w1. split; [done|]. intros Hquiet.
    by apply (fetchLoop_quiet env globalTimer (channelId :: items) cacheTimer
                loggerTimer n w tt w1).
Qed.

End Properties.

(** ** Further properties of the methods *)

Section FurtherProperties.

Local Close Scope string_scope.
Local Open Scope nat_scope.

Context {Num RawTx AddrTxs : Type}.
Implicit Types (env : Env Num RawTx AddrTxs) (w : World Num RawTx AddrTxs).
Implicit Types (c : gmap N Block) (block b : Block).

Ltac unfold_rpc :=
  unfold rpc_getAddressTxs, rpc_getRawMempool, rpc_getRawTransaction,
    rpc_decodeRawTransaction, rpc_getBlockHash, rpc_getBlock, call.

Ltac unfold_monad := unfold bind, ret, throw, gets, modify, try_catch.

(** *** A resolution that misses the cache, step by step *)

(** A resolution of an id that is not in [fundingTxCache], up to line 153:
    the block is looked up, put into the block cache, and the transaction is
    asked for. *)
Lemma fetchChannelOpenTx_miss_block env channelId w :
  let id := channelIntegerIdToShortId env channelId in
  let parts := Js.split "x" id in
  fundingTxCache w !! id = None →
  match blockFor env w (hd ""%string parts) with
  | Throw e =>
    ∃ w1, fetchChannelOpenTx env channelId w = (Throw e, w1) ∧
          blocksCache w1 = blocksCache w ∧
          fundingTxCache w1 = fundingTxCache w ∧
          channelNewlyProcessed w1 = channelNewlyProcessed w ∧
          rpcLog w1 = rpcLog w ++ blockCalls env w (hd ""%string parts)
  | Ok b =>
    let txid := Js.array_get (tx b) (parts !! 1) in
    ∃ w1, blocksCache w1 = blocksCache_put b (blocksCache w) ∧
          fundingTxCache w1 = fundingTxCache w ∧
          channelNewlyProcessed w1 = channelNewlyProcessed w ∧
          rpcLog w1 = rpcLog w ++ blockCalls env w (hd ""%string parts)
                      ++ [GetRawTransaction txid None] ∧
          fetchChannelOpenTx env channelId w
          = match getRawTransaction (rpc env) txid None with
            | Throw e => (Throw e, w1)
            | Ok raw =>
              match decodeRawTransaction (rpc env) raw with
              | Throw e => (Throw e, log_rpc (DecodeRawTransaction raw) w1)
              | Ok decoded =>
                storeFundingTx id (parts !! 2) b txid decoded
                  (log_rpc (DecodeRawTransaction raw) w1)
              end
            end
  end.
Proof.
  intros id parts Hmiss.
  unfold fetchChannelOpenTx, blockFor, blockCalls. fold id. fold parts.
  unfold_rpc. unfold_monad. rewrite Hmiss.
  destruct (blocksCache_get (blocksCache w) (hd ""%string parts)) as [cached|].
  - cbn -[Js.array_get evict storeFundingTx].
    eexists. split_and!; last reflexivity; cbn; rewrite ?app_nil_r; done.
  - destruct (getBlockHash (rpc env) (Js.parseInt (hd ""%string parts)))
      as [hash|e]; cbn -[Js.array_get evict storeFundingTx].
    + destruct (getBlock (rpc env) hash 1) as [b|e];
        cbn -[Js.array_get evict storeFundingTx].
      * eexists. split_and!; last reflexivity; cbn; rewrite <-?app_assoc; done.
      * eexists. split_and!; first reflexivity; cbn; rewrite <-?app_assoc; done.
    + eexists. split_and!; first reflexivity; cbn; done.
Qed.

(** What the test of line 155 and the store after it can do: return [null],
    throw on reading [value] of an output that is not there, or store. *)
Lemma storeFundingTx_inv id outputIdx b id_tx (decoded : option (DecodedTx Num)) w :
  storeFundingTx id outputIdx b id_tx decoded w = (Ok None, w) ∨
  (storeFundingTx id outputIdx b id_tx decoded w = (Throw TypeError, w) ∧
   ∃ tx outs, decoded = Some tx ∧ vout tx = Some outs ∧
              Js.array_get outs outputIdx = None) ∨
  ∃ tx outs O out v,
    decoded = Some tx ∧ vout tx = Some outs ∧
    outputIdx = Some (Js.show O) ∧ outs !! N.to_nat O = Some out ∧
    vout_value out = Some v ∧
    let record := FundingTx {| timestamp := time b; txid := id_tx; value := v |} in
    storeFundingTx id outputIdx b id_tx decoded w
    = (Ok (Some record),
       set_channelNewlyProcessed (S (channelNewlyProcessed w))
         (set_fundingTxCache (<[id := record]> (fundingTxCache w)) w)).
Proof.
  unfold storeFundingTx.
  destruct decoded as [tx|]; [|by left].
  destruct (vout tx) as [outs|] eqn:Hvout; [|by left].
  destruct (Js.lt_nan _ _); [by left|].
  destruct (Js.array_get outs outputIdx) as [out|] eqn:Hout.
  - destruct (vout_value out) as [v|] eqn:Hv; [|by left].
    right. right.
    unfold Js.array_get in Hout. destruct outputIdx as [key|]; [|done].
    destruct (Js.index_of_key key) as [O|] eqn:Hkey; [|done].
    apply JsFacts.index_of_key_Some in Hkey as ->.
    exists tx, outs, O, out, v. split_and!; try done.
    unfold_monad. cbn. by rewrite lookup_insert_eq.
  - right. left. split; [done|]. by exists tx, outs.
Qed.

(** The store makes no RPC call and leaves the block cache alone. *)
Lemma storeFundingTx_frame id outputIdx b id_tx (decoded : option (DecodedTx Num)) w :
  let w' := snd (storeFundingTx id outputIdx b id_tx decoded w) in
  rpcLog w' = rpcLog w ∧ blocksCache w' = blocksCache w.
Proof.
  destruct (storeFundingTx_inv id outputIdx b id_tx decoded w)
    as [->|[[-> _]|(tx & outs & O & out & v & _ & _ & _ & _ & _ & ->)]]; done.
Qed.

(** *** Resolutions: what is stored, what is asked *)

(** X1. Whenever a resolution of an id that was not in [fundingTxCache]
    returns a record, that record was built from what the block cache and the
    collaborator hold: the block is the cached one or the one answered for the
    first part of the id, its transaction at the second part was fetched and
    decoded to an output list, the third part is the decimal text of an index
    [O] of that list whose output has a value, and the record is
    [{timestamp: block.time, txid: block.tx[T], value: vout[O].value}], stored
    under the normalised id. *)
Theorem fetchChannelOpenTx_stored_record_sound env channelId w entry w' :
  let id := channelIntegerIdToShortId env channelId in
  let parts := Js.split "x" id in
  fundingTxCache w !! id = None →
  fetchChannelOpenTx env channelId w = (Ok (Some entry), w') →
  ∃ b raw decoded outs O out v,
    blockFor env w (hd ""%string parts) = Ok b ∧
    getRawTransaction (rpc env) (Js.array_get (tx b) (parts !! 1)) None = Ok raw ∧
    decodeRawTransaction (rpc env) raw = Ok (Some decoded) ∧
    vout decoded = Some outs ∧
    parts !! 2 = Some (Js.show O) ∧
    outs !! N.to_nat O = Some out ∧
    vout_value out = Some v ∧
    entry = FundingTx {| timestamp := time b;
                         txid := Js.array_get (tx b) (parts !! 1);
                         value := v |} ∧
    fundingTxCache w' = <[id := entry]> (fundingTxCache w).
Proof.
  intros id parts Hmiss Hrun.
  pose proof (fetchChannelOpenTx_miss_block env channelId w Hmiss) as Hshape.
  fold id parts in Hshape.
  destruct (blockFor env w (hd ""%string parts)) as [b|e].
  2:{ destruct Hshape as (w1 & Heq & _). by rewrite Heq in Hrun. }
  cbn zeta in Hshape. destruct Hshape as (w1 & _ & Hcache & _ & _ & Heq).
  rewrite Heq in Hrun. clear Heq.
  destruct (getRawTransaction (rpc env) _ None) as [raw|] eqn:Hraw; [|done].
  destruct (decodeRawTransaction (rpc env) raw) as [decoded|] eqn:Hdec; [|done].
  destruct (storeFundingTx_inv id (parts !! 2) b
              (Js.array_get (tx b) (parts !! 1)) decoded
              (log_rpc (DecodeRawTransaction raw) w1))
    as [Hs|[[Hs _]|(tx & outs & O & out & v & -> & Hvout & Hidx & Hout & Hv & Hs)]];
    rewrite Hs in Hrun; try done.
  injection Hrun as <- <-.
  exists b, raw, tx, outs, O, out, v. split_and!; try done.
  cbn. by rewrite Hcache.
Qed.

(** A resolution that returns a record leaves it in [fundingTxCache] under
    the normalised id. *)
Lemma fetchChannelOpenTx_Some_cached env channelId w entry w' :
  fetchChannelOpenTx env channelId w = (Ok (Some entry), w') →
  fundingTxCache w' !! channelIntegerIdToShortId env channelId = Some entry.
Proof.
  intros Hrun.
  destruct (fundingTxCache w !! channelIntegerIdToShortId env channelId)
    as [hit|] eqn:Hhit.
  - rewrite (fetchChannelOpenTx_hit_run env w channelId hit Hhit) in Hrun.
    by injection Hrun as <- <-.
  - pose proof (fetchChannelOpenTx_miss_block env channelId w Hhit) as Hshape.
    cbn zeta in Hshape.
    destruct (blockFor env w _) as [b|e].
    2:{ destruct Hshape as (w1 & Heq & _). by rewrite Heq in Hrun. }
    destruct Hshape as (w1 & _ & Hcache & _ & _ & Heq).
    rewrite Heq in Hrun. clear Heq.
    destruct (getRawTransaction (rpc env) _ None) as [raw|]; [|done].
    destruct (decodeRawTransaction (rpc env) raw) as [decoded|]; [|done].
    match type of Hrun with
    | storeFundingTx ?id ?o ?b ?t ?d ?w0 = _ =>
        destruct (storeFundingTx_inv id o b t d w0)
          as [Hs|[[Hs _]|(tx & outs & O & out & v & _ & _ & _ & _ & _ & Hs)]]
    end; rewrite Hs in Hrun; try done.
    injection Hrun as <- <-. cbn. by rewrite lookup_insert_eq.
Qed.

(** X2. Once a resolution has returned a record for a channel, any further
    resolution of an id that normalises to the same short id, whatever the
    collaborator would answer by then, returns that same record and leaves the
    whole world as it is. *)
Theorem fetchChannelOpenTx_resolved_then_cached env env' channelId channelId' w entry w' :
  channelIntegerIdToShortId env' channelId' = channelIntegerIdToShortId env channelId →
  fetchChannelOpenTx env channelId w = (Ok (Some entry), w') →
  fetchChannelOpenTx env' channelId' w' = (Ok (Some entry), w').
Proof.
  intros Hsame Hrun%fetchChannelOpenTx_Some_cached.
  apply fetchChannelOpenTx_hit_run. by rewrite Hsame.
Qed.

(** A resolution of an id that is not in [fundingTxCache] makes at least one
    RPC call. *)
Lemma fetchChannelOpenTx_miss_calls env channelId w :
  fundingTxCache w !! channelIntegerIdToShortId env channelId = None →
  length (rpcLog w) < length (rpcLog (snd (fetchChannelOpenTx env channelId w))).
Proof.
  intros Hmiss.
  pose proof (fetchChannelOpenTx_miss_block env channelId w Hmiss) as Hshape.
  cbn zeta in Hshape.
  destruct (blockFor env w _) as [b|e] eqn:Hblock.
  - destruct Hshape as (w1 & _ & _ & _ & Hlog & ->).
    apply (f_equal length) in Hlog. rewrite !length_app in Hlog. cbn in Hlog.
    destruct (getRawTransaction (rpc env) _ None) as [raw|]; [|cbn; lia].
    destruct (decodeRawTransaction (rpc env) raw) as [decoded|];
      [|cbn; rewrite length_app; lia].
    match goal with
    | |- context [storeFundingTx ?id ?o ?b ?t ?d ?w0] =>
        destruct (storeFundingTx_frame id o b t d w0) as [-> _]
    end.
    cbn. rewrite length_app. lia.
  - destruct Hshape as (w1 & -> & _ & _ & _ & Hlog). cbn [snd].
    rewrite Hlog, length_app. unfold blockFor, blockCalls in *.
    destruct (blocksCache_get _ _); [done|]. cbn. lia.
Qed.

(** X3. For an id whose first part is written in decimal digits, a
    resolution makes an RPC call exactly when the normalised id is not in
    [fundingTxCache].  In particular such an id that resolved to [null] is
    remembered nowhere: asking for it again asks the collaborator again. *)
Theorem fetchChannelOpenTx_rpc_iff_miss env channelId w :
  decimalId env channelId →
  rpcLog (snd (fetchChannelOpenTx env channelId w)) = rpcLog w ↔
  is_Some (fundingTxCache w !! channelIntegerIdToShortId env channelId).
Proof.
  intros _. split.
  - intros Hquiet.
    destruct (fundingTxCache w !! channelIntegerIdToShortId env channelId)
      as [hit|] eqn:Hhit; [by eexists|].
    pose proof (fetchChannelOpenTx_miss_calls env channelId w Hhit) as Hlog.
    rewrite Hquiet in Hlog. lia.
  - intros [hit Hhit].
    by rewrite (fetchChannelOpenTx_hit_run env w channelId hit Hhit).
Qed.

(** X4. The RPC calls of a resolution that gets as far as the decoded
    transaction, in the order they are made: [getBlockHash] and [getBlock]
    unless the block is in the block cache, then [getRawTransaction] and
    [decodeRawTransaction].  A cached block saves the first two: the
    resolution then makes exactly the last two. *)
Theorem fetchChannelOpenTx_rpc_calls env channelId w b raw decoded :
  let id := channelIntegerIdToShortId env channelId in
  let parts := Js.split "x" id in
  let txid := Js.array_get (tx b) (parts !! 1) in
  let w' := snd (fetchChannelOpenTx env channelId w) in
  fundingTxCache w !! id = None →
  blockFor env w (hd ""%string parts) = Ok b →
  getRawTransaction (rpc env) txid None = Ok raw →
  decodeRawTransaction (rpc env) raw = Ok decoded →
  rpcLog w' = rpcLog w ++ blockCalls env w (hd ""%string parts)
              ++ [GetRawTransaction txid None; DecodeRawTransaction raw] ∧
  (blocksCache_get (blocksCache w) (hd ""%string parts) = Some b →
   rpcLog w' = rpcLog w ++ [GetRawTransaction txid None; DecodeRawTransaction raw]) ∧
  (blocksCache_get (blocksCache w) (hd ""%string parts) = None →
   ∃ blockHash,
     getBlockHash (rpc env) (Js.parseInt (hd ""%string parts)) = Ok blockHash ∧
     rpcLog w' = rpcLog w ++ [GetBlockHash (Js.parseInt (hd ""%string parts));
                              GetBlock blockHash 1;
                              GetRawTransaction txid None;
                              DecodeRawTransaction raw]).
Proof.
  intros id parts txid w' Hmiss Hblock Hraw Hdec.
  pose proof (fetchChannelOpenTx_miss_block env channelId w Hmiss) as Hshape.
  cbn zeta in Hshape. fold id parts in Hshape. rewrite Hblock in Hshape.
  fold txid in Hshape. rewrite Hraw, Hdec in Hshape.
  destruct Hshape as (w1 & _ & _ & _ & Hlog & Hrun).
  assert (rpcLog w' = rpcLog w ++ blockCalls env w (hd ""%string parts)
                      ++ [GetRawTransaction txid None; DecodeRawTransaction raw])
    as Hcalls.
  { unfold w'. rewrite Hrun.
    destruct (storeFundingTx_frame id (parts !! 2) b txid decoded
                (log_rpc (DecodeRawTransaction raw) w1)) as [-> _].
    cbn. rewrite Hlog. by rewrite <-!app_assoc. }
  split; [done|]. rewrite Hcalls. unfold blockCalls, blockFor in *.
  split.
  - by intros ->.
  - intros Hnone. rewrite Hnone in Hblock |- *.
    destruct (getBlockHash (rpc env) _) as [hash|]; [|done].
    by exists hash.
Qed.

(** X5. For an id whose first part is written in decimal digits: when the
    block can neither be found in the block cache nor be fetched
    ([getBlockHash] or [getBlock] throws), the resolution throws that same
    error, and neither cache nor the counter has changed. *)
Theorem fetchChannelOpenTx_block_failure env channelId w e :
  let id := channelIntegerIdToShortId env channelId in
  decimalId env channelId →
  fundingTxCache w !! id = None →
  blockFor env w (hd ""%string (Js.split "x" id)) = Throw e →
  ∃ w', fetchChannelOpenTx env channelId w = (Throw e, w') ∧
        blocksCache w' = blocksCache w ∧
        fundingTxCache w' = fundingTxCache w ∧
        channelNewlyProcessed w' = channelNewlyProcessed w.
Proof.
  intros id _ Hmiss Hblock.
  pose proof (fetchChannelOpenTx_miss_block env channelId w Hmiss) as Hshape.
  cbn zeta in Hshape. fold id in Hshape. rewrite Hblock in Hshape.
  destruct Hshape as (w1 & Hrun & Hb & Hf & Hn & _). by exists w1.
Qed.

(** X6. When the block was resolved but its transaction cannot be fetched or
    decoded ([getRawTransaction] or [decodeRawTransaction] throws), the
    resolution throws that same error; the block has been put into the block
    cache all the same, and [fundingTxCache] and the counter are as they
    were. *)
Theorem fetchChannelOpenTx_tx_failure_keeps_block env channelId w b e :
  let id := channelIntegerIdToShortId env channelId in
  let parts := Js.split "x" id in
  let txid := Js.array_get (tx b) (parts !! 1) in
  fundingTxCache w !! id = None →
  blockFor env w (hd ""%string parts) = Ok b →
  (getRawTransaction (rpc env) txid None = Throw e ∨
   ∃ raw, getRawTransaction (rpc env) txid None = Ok raw ∧
          decodeRawTransaction (rpc env) raw = Throw e) →
  ∃ w', fetchChannelOpenTx env channelId w = (Throw e, w') ∧
        blocksCache w' = blocksCache_put b (blocksCache w) ∧
        fundingTxCache w' = fundingTxCache w ∧
        channelNewlyProcessed w' = channelNewlyProcessed w.
Proof.
  intros id parts txid Hmiss Hblock Hfail.
  pose proof (fetchChannelOpenTx_miss_block env channelId w Hmiss) as Hshape.
  cbn zeta in Hshape. fold id parts in Hshape. rewrite Hblock in Hshape.
  fold txid in Hshape.
  destruct Hshape as (w1 & Hb & Hf & Hn & _ & Hrun).
  destruct Hfail as [Hraw|(raw & Hraw & Hdec)].
  - rewrite Hraw in Hrun. by exists w1.
  - rewrite Hraw, Hdec in Hrun. by eexists.
Qed.

(** X7. An id with fewer than three parts (no second [x]) that is not in
    [fundingTxCache] never resolves to a record.  When its block and
    transaction are answered and the transaction has an output list, the
    comparison of line 155 is one with [NaN], which lets it through, and
    reading [value] of [tx.vout[undefined]] throws a [TypeError]; nothing is
    stored. *)
Theorem fetchChannelOpenTx_short_id_TypeError env channelId w :
  let id := channelIntegerIdToShortId env channelId in
  let parts := Js.split "x" id in
  fundingTxCache w !! id = None →
  length parts < 3 →
  (∀ entry w', fetchChannelOpenTx env channelId w ≠ (Ok (Some entry), w')) ∧
  (∀ b raw decoded outs,
     blockFor env w (hd ""%string parts) = Ok b →
     getRawTransaction (rpc env) (Js.array_get (tx b) (parts !! 1)) None = Ok raw →
     decodeRawTransaction (rpc env) raw = Ok (Some decoded) →
     vout decoded = Some outs →
     ∃ w', fetchChannelOpenTx env channelId w = (Throw TypeError, w') ∧
           fundingTxCache w' = fundingTxCache w ∧
           channelNewlyProcessed w' = channelNewlyProcessed w).
Proof.
  intros id parts Hmiss Hshort.
  assert (parts !! 2 = None) as Hnone by (apply lookup_ge_None; lia).
  pose proof (fetchChannelOpenTx_miss_block env channelId w Hmiss) as Hshape.
  cbn zeta in Hshape. fold id parts in Hshape. rewrite Hnone in Hshape.
  split.
  - intros entry w' Hrun.
    destruct (blockFor env w (hd ""%string parts)) as [b|e].
    2:{ destruct Hshape as (w1 & Heq & _). by rewrite Heq in Hrun. }
    destruct Hshape as (w1 & _ & _ & _ & _ & Heq). rewrite Heq in Hrun.
    destruct (getRawTransaction (rpc env) _ None) as [raw|]; [|done].
    destruct (decodeRawTransaction (rpc env) raw) as [decoded|]; [|done].
    match type of Hrun with
    | storeFundingTx ?id ?o ?b ?t ?d ?w0 = _ =>
        destruct (storeFundingTx_inv id o b t d w0)
          as [Hs|[[Hs _]|(tx & outs & O & out & v & _ & _ & Hidx & _)]]
    end; [by rewrite Hs in Hrun..|done].
  - intros b raw decoded outs Hblock Hraw Hdec Hvout.
    rewrite Hblock in Hshape. rewrite Hraw, Hdec in Hshape.
    destruct Hshape as (w1 & _ & Hf & Hn & _ & Hrun).
    unfold storeFundingTx in Hrun. rewrite Hvout in Hrun. cbn in Hrun.
    eexists. split; [exact Hrun|]. done.
Qed.

(** *** The block cache across calls *)

Lemma lookup_evict_Some c k b : evict c !! k = Some b → c !! k = Some b.
Proof.
  unfold evict. case_decide; [|done].
  rewrite lookup_delete_first10. by case_decide.
Qed.

Lemma lookup_blocksCache_put_Some block c k b :
  blocksCache_put block c !! k = Some b →
  (k = height block ∧ b = block) ∨ c !! k = Some b.
Proof.
  intros Hin%lookup_evict_Some.
  destruct (decide (k = height block)) as [->|Hne].
  - rewrite lookup_insert_eq in Hin. left. by injection Hin as <-.
  - rewrite lookup_insert_ne in Hin by done. by right.
Qed.

Lemma reachable_blocksCache_keyed w :
  reachable w → ∀ h b, blocksCache w !! h = Some b → height b = h.
Proof.
  revert w.
  apply (reachable_ind_frame
           (λ w, ∀ h b, blocksCache w !! h = Some b → height b = h)); try done.
  intros env channelId w Hw h b.
  destruct (fetchChannelOpenTx_effect env channelId w) as (_ & [->|[b' ->]] & _).
  - apply Hw.
  - intros [[-> ->]|Hold]%lookup_blocksCache_put_Some; [done|by apply Hw].
Qed.



(** The block cache after a resolution that found its block. *)
Lemma fetchChannelOpenTx_miss_blocksCache env channelId w b :
  let id := channelIntegerIdToShortId env channelId in
  fundingTxCache w !! id = None →
  blockFor env w (hd ""%string (Js.split "x" id)) = Ok b →
  blocksCache (snd (fetchChannelOpenTx env channelId w))
  = blocksCache_put b (blocksCache w).
Proof.
  intros id Hmiss Hblock.
  pose proof (fetchChannelOpenTx_miss_block env channelId w Hmiss) as Hshape.
  cbn zeta in Hshape. fold id in Hshape. rewrite Hblock in Hshape.
  destruct Hshape as (w1 & Hb & _ & _ & _ & ->).
  destruct (getRawTransaction (rpc env) _ None) as [raw|]; [|done].
  destruct (decodeRawTransaction (rpc env) raw) as [decoded|]; [|done].
  match goal with
  | |- context [storeFundingTx ?id ?o ?b ?t ?d ?w0] =>
      destruct (storeFundingTx_frame id o b t d w0) as [_ ->]
  end.
  done.
Qed.

(** A block below every height of a full cache is evicted by the step that
    inserts it. *)
Lemma blocksCache_put_lowest block c :
  size c = BLOCKS_CACHE_MAX_SIZE →
  map_Forall (λ k _, (height block < k)%N) c →
  blocksCache_put block c !! height block = None.
Proof.
  intros Hfull Hlow. unfold blocksCache_put.
  set (inserted := <[height block := block]> c).
  assert (c !! height block = None) as Hfresh.
  { destruct (c !! height block) as [old|] eqn:Hold; [|done].
    specialize (Hlow _ _ Hold). cbn in Hlow. lia. }
  assert (BLOCKS_CACHE_MAX_SIZE < size inserted) as Hlarge.
  { unfold inserted. rewrite map_size_insert_None by done. lia. }
  rewrite evict_large by done. rewrite lookup_delete_first10.
  destruct (evicted_lowest inserted Hlarge) as (Hlen & _ & Hin & Hbelow).
  case_decide as Hevicted; [done|]. exfalso.
  destruct (take 10 (blocksCacheHashes inserted)) as [|k evicted] eqn:Htake;
    [done|].
  assert (k ∈ k :: evicted) as Hk by left.
  assert (k < height block)%N as Hlt.
  { apply (Hbelow k (height block) Hk); [|done].
    unfold inserted. rewrite lookup_insert_eq. by eexists. }
  destruct (Hin k Hk) as [bk Hbk]. unfold inserted in Hbk.
  rewrite lookup_insert_ne in Hbk by lia.
  specialize (Hlow _ _ Hbk). cbn in Hlow. lia.
Qed.

(** X9. The block cache keeps the highest blocks, not the latest ones: when
    it holds 100 blocks and a resolution fetches a block below all of them,
    the block is inserted and evicted in the same step (lines 142-149), so it
    is not in the block cache after the call. *)
Theorem fetchChannelOpenTx_old_block_not_kept env channelId w b :
  let id := channelIntegerIdToShortId env channelId in
  fundingTxCache w !! id = None →
  blockFor env w (hd ""%string (Js.split "x" id)) = Ok b →
  size (blocksCache w) = 100 →
  map_Forall (λ k _, (height b < k)%N) (blocksCache w) →
  blocksCache (snd (fetchChannelOpenTx env channelId w)) !! height b = None.
Proof.
  intros id Hmiss Hblock Hfull Hlow.
  rewrite (fetchChannelOpenTx_miss_blocksCache env channelId w b Hmiss Hblock).
  by apply blocksCache_put_lowest.
Qed.


(** X10. In every world the object can reach, a resolution of an id whose
    first part is written in decimal digits and whose block is found in the
    block cache leaves the block cache exactly as it was: the block is written
    back under its own key and nothing is evicted. *)
Theorem fetchChannelOpenTx_cached_block_keeps_cache env channelId w b :
  let id := channelIntegerIdToShortId env channelId in
  reachable w →
  decimalId env channelId →
  blocksCache_get (blocksCache w) (hd ""%string (Js.split "x" id)) = Some b →
  blocksCache (snd (fetchChannelOpenTx env channelId w)) = blocksCache w.
Proof.
  intros id Hw _ Hcached.
  destruct (fundingTxCache w !! id) as [hit|] eqn:Hmiss.
  { by rewrite (fetchChannelOpenTx_hit_run env w channelId hit Hmiss). }
  rewrite (fetchChannelOpenTx_miss_blocksCache env channelId w b Hmiss).
  - assert (blocksCache w !! height b = Some b) as Hkey.
    { unfold blocksCache_get in Hcached.
      destruct (Js.index_of_key _) as [h|]; [|done].
      by rewrite (reachable_blocksCache_keyed w Hw h b Hcached). }
    unfold blocksCache_put. rewrite insert_id by done.
    apply evict_small. by apply reachable_blocksCache_bound.
  - unfold blockFor. fold id. by rewrite Hcached.
Qed.

(** *** The wallet monitor and [$init] *)

(** What a refresh, caught or not, leaves alone: everything but the wallet
    snapshot, the entry of [fundingTxCache] under the watched address and the
    log of RPC calls. *)
Lemma monitorLightningWallet_frame env w :
  let w' := snd (monitorLightningWallet env w) in
  running w' = running w ∧ blocksCache w' = blocksCache w ∧
  channelNewlyProcessed w' = channelNewlyProcessed w ∧
  cacheFile w' = cacheFile w ∧ flushes w' = flushes w ∧
  clockReads w' = clockReads w ∧
  (∀ k, k ≠ MY_LIGHTNING_WALLET_ADDRESS →
        fundingTxCache w' !! k = fundingTxCache w !! k) ∧
  (∀ k, is_Some (fundingTxCache w !! k) → is_Some (fundingTxCache w' !! k)).
Proof.
  apply (preserves_monitorLightningWallet
           (λ w', running w' = running w ∧ blocksCache w' = blocksCache w ∧
                  channelNewlyProcessed w' = channelNewlyProcessed w ∧
                  cacheFile w' = cacheFile w ∧ flushes w' = flushes w ∧
                  clockReads w' = clockReads w ∧
                  (∀ k, k ≠ MY_LIGHTNING_WALLET_ADDRESS →
                        fundingTxCache w' !! k = fundingTxCache w !! k) ∧
                  (∀ k, is_Some (fundingTxCache w !! k) →
                        is_Some (fundingTxCache w' !! k)))).
  - by intros w0 c0 H.
  - by intros w0 l H.
  - intros w0 txs (? & ? & ? & ? & ? & ? & Hother & Hsome).
    split_and!; try done.
    + intros k Hk. cbn. rewrite lookup_insert_ne by done. by apply Hother.
    + intros k Hk. cbn. apply lookup_insert_is_Some'. right. by apply Hsome.
  - by split_and!.
Qed.

Lemma init_load env w loaded :
  size (fundingTxCache w) = 0 → cacheFile w = Some (Json loaded) →
  init env w = monitorLightningWallet env (set_fundingTxCache loaded w).
Proof.
  intros Hempty Hfile. unfold init. unfold bind at 1 2 3. unfold gets.
  rewrite Hfile. by rewrite decide_True.
Qed.

Lemma init_corrupt env w :
  size (fundingTxCache w) = 0 → cacheFile w = Some Corrupt →
  init env w = monitorLightningWallet env (set_fundingTxCache ∅ w).
Proof.
  intros Hempty Hfile. unfold init. unfold bind at 1 2 3. unfold gets.
  rewrite Hfile. by rewrite decide_True.
Qed.

Lemma init_skip env w :
  size (fundingTxCache w) ≠ 0 ∨ cacheFile w = None →
  init env w = monitorLightningWallet env w.
Proof.
  intros Hskip. unfold init. unfold bind at 1 2 3. unfold gets.
  destruct (cacheFile w) as [content|]; [|done].
  destruct Hskip as [Hne|?]; [|done]. by rewrite decide_False.
Qed.

(** [$init] is the wallet monitor run on the world after the load, and the
    wallet monitor always returns. *)
Lemma init_Ok env w : ∃ w', init env w = (Ok tt, w').
Proof.
  assert (∃ w0, init env w = monitorLightningWallet env w0) as [w0 ->].
  { destruct (decide (size (fundingTxCache w) = 0)) as [Hempty|Hne].
    - destruct (cacheFile w) as [[loaded|]|] eqn:Hfile.
      + eexists. by apply init_load.
      + eexists. by apply init_corrupt.
      + exists w. apply init_skip. by right.
    - exists w. apply init_skip. by left. }
  apply monitorLightningWallet_returns.
Qed.

(** X12. On an object whose [fundingTxCache] is empty and whose cache file
    holds the JSON text of a cache, [$init] loads the file: afterwards every
    key other than the watched address has exactly the entry of the file (the
    entry under the watched address is the one of the file or the one the
    refresh has just stored). *)
Theorem init_loads_cache_file env w loaded k :
  size (fundingTxCache w) = 0 →
  cacheFile w = Some (Json loaded) →
  k ≠ MY_LIGHTNING_WALLET_ADDRESS →
  fundingTxCache (snd (init env w)) !! k = loaded !! k.
Proof.
  intros Hempty Hfile Hk. rewrite (init_load env w loaded) by done.
  destruct (monitorLightningWallet_frame env (set_fundingTxCache loaded w))
    as (_ & _ & _ & _ & _ & _ & Hother & _).
  by rewrite Hother.
Qed.

(** X13. A cache file that cannot be parsed is not fatal and is not repaired:
    [$init] returns, [fundingTxCache] holds no channel record afterwards (at
    most the entry under the watched address), and the file is left as it
    is. *)
Theorem init_corrupt_file_starts_empty env w :
  size (fundingTxCache w) = 0 →
  cacheFile w = Some Corrupt →
  ∃ w', init env w = (Ok tt, w') ∧
        (∀ k, k ≠ MY_LIGHTNING_WALLET_ADDRESS → fundingTxCache w' !! k = None) ∧
        cacheFile w' = Some Corrupt.
Proof.
  intros Hempty Hfile.
  destruct (init_Ok env w) as [w' Hrun].
  pose proof (preserves_init (λ w0, cacheFile w0 = cacheFile w)
                (λ _ _ H, H) (λ _ _ H, H) (λ _ _ H, H) (λ _ _ H, H) env w eq_refl)
    as Hf.
  rewrite Hrun in Hf. cbn [snd] in Hf.
  exists w'. split_and!; [done| |congruence].
  intros k Hk.
  pose proof (init_corrupt env w Hempty Hfile) as Hvia. rewrite Hrun in Hvia.
  destruct (monitorLightningWallet_frame env (set_fundingTxCache ∅ w))
    as (_ & _ & _ & _ & _ & _ & Hother & _).
  rewrite <-Hvia in Hother. cbn [snd] in Hother. by rewrite Hother.
Qed.

(** X14. [$init] reads the cache file only into an empty [fundingTxCache]
    (line 25).  When the cache holds anything at all, the file is ignored:
    every key other than the watched address has the entry it had, and
    records that are in the file only are not loaded. *)
Theorem init_ignores_file_when_cache_nonempty env w k :
  fundingTxCache w ≠ ∅ →
  k ≠ MY_LIGHTNING_WALLET_ADDRESS →
  fundingTxCache (snd (init env w)) !! k = fundingTxCache w !! k.
Proof.
  intros Hne Hk. rewrite init_skip.
  - destruct (monitorLightningWallet_frame env w)
      as (_ & _ & _ & _ & _ & _ & Hother & _).
    by apply Hother.
  - left. intros Hsize. by apply Hne, map_size_empty_iff.
Qed.


(** X15. When the collaborator answers every call of a refresh (the confirmed
    history, the mempool listing, and each listed transaction fetched and
    decoded to an output list), [$monitorLightningWallet] replaces the wallet
    snapshot by the expected one, stores the confirmed history in
    [fundingTxCache] under the watched address and changes no other key; it
    has made two RPC calls plus two for each transaction of the listing. *)
Theorem monitorLightningWallet_goes_through env w confirmedTxs mempoolEntries :
  getAddressTxs (rpc env) MY_LIGHTNING_WALLET_ADDRESS = Ok confirmedTxs →
  getRawMempool (rpc env) true = Ok mempoolEntries →
  Forall (λ entry, is_Some (decodedOutputs env entry.1)) mempoolEntries →
  ∃ w', monitorLightningWallet env w = (Ok tt, w') ∧
        walletMempoolTxs w' = expectedSnapshot env mempoolEntries ∧
        fundingTxCache w'
        = <[MY_LIGHTNING_WALLET_ADDRESS := ConfirmedTxs confirmedTxs]>
            (fundingTxCache w) ∧
        length (rpcLog w') = length (rpcLog w) + 2 + 2 * length mempoolEntries.
Proof.
  intros Haddr Hpool Hall.
  destruct (refreshWallet_all_decoded env w _ _ Haddr Hpool Hall)
    as (w' & Hrun & Hrest).
  exists w'. split; [|done]. unfold monitorLightningWallet, try_catch.
  by rewrite Hrun.
Qed.

(** X16. A refresh is all or nothing.  When one transaction of the mempool
    listing cannot be fetched, cannot be decoded or decodes to something
    without an output list, the refresh is abandoned: [$monitorLightningWallet]
    still returns, and the wallet snapshot and [fundingTxCache], the entry
    under the watched address included, are as they were, although the
    confirmed history had been fetched. *)
Theorem monitorLightningWallet_all_or_nothing env w mempoolEntries :
  getRawMempool (rpc env) true = Ok mempoolEntries →
  Exists (λ entry, decodedOutputs env entry.1 = None) mempoolEntries →
  ∃ w', monitorLightningWallet env w = (Ok tt, w') ∧
        walletMempoolTxs w' = walletMempoolTxs w ∧
        fundingTxCache w' = fundingTxCache w.
Proof.
  intros Hpool Hbad.
  assert (∃ e w1, refreshWallet env w = (Throw e, w1)) as (e & w1 & Hrun).
  { unfold refreshWallet. unfold_rpc. unfold bind at 1.
    destruct (getAddressTxs _ _) as [confirmed|]; [|by eexists _, _].
    unfold bind at 1. rewrite Hpool. unfold bind at 1.
    destruct (scanMempool_bad_entry env mempoolEntries Hbad []
                (log_rpc (GetRawMempool true)
                   (log_rpc (GetAddressTxs MY_LIGHTNING_WALLET_ADDRESS) w)))
      as (e & w1 & ->).
    by eexists _, _. }
  exists w1. unfold monitorLightningWallet, try_catch. rewrite Hrun.
  split; [done|]. by eapply refreshWallet_Throw.
Qed.

(** X17. After an [$init] during which the collaborator answered every call
    of the refresh, [getWalletMempoolStatus] returns the expected snapshot of
    the mempool listing, and returning it changes nothing. *)
Theorem getWalletMempoolStatus_after_init env w confirmedTxs mempoolEntries :
  getAddressTxs (rpc env) MY_LIGHTNING_WALLET_ADDRESS = Ok confirmedTxs →
  getRawMempool (rpc env) true = Ok mempoolEntries →
  Forall (λ entry, is_Some (decodedOutputs env entry.1)) mempoolEntries →
  ∃ w', init env w = (Ok tt, w') ∧
        getWalletMempoolStatus w' = (Ok (expectedSnapshot env mempoolEntries), w').
Proof.
  intros Haddr Hpool Hall.
  assert (∀ w0, ∃ w', monitorLightningWallet env w0 = (Ok tt, w') ∧
                      walletMempoolTxs w' = expectedSnapshot env mempoolEntries)
    as Hmon.
  { intros w0.
    destruct (refreshWallet_all_decoded env w0 _ _ Haddr Hpool Hall)
      as (w' & Hrun & Hsnap & _).
    exists w'. split; [|done]. unfold monitorLightningWallet, try_catch.
    by rewrite Hrun. }
  assert (∃ w0, init env w = monitorLightningWallet env w0) as [w0 ->].
  { destruct (decide (size (fundingTxCache w) = 0)) as [Hempty|Hne].
    - destruct (cacheFile w) as [[loaded|]|] eqn:Hfile.
      + eexists. by apply init_load.
      + eexists. by apply init_corrupt.
      + exists w. apply init_skip. by right.
    - exists w. apply init_skip. by left. }
  destruct (Hmon w0) as (w' & Hrun & Hsnap). exists w'. split; [done|].
  unfold getWalletMempoolStatus, gets. by rewrite Hsnap.
Qed.


(** *** What no call undoes *)

Lemma fetchChannelOpenTx_keeps_entry env channelId k entry :
  preserves (λ w, is_Some (fundingTxCache w !! k) ∧
                  (k ≠ MY_LIGHTNING_WALLET_ADDRESS →
                   fundingTxCache w !! k = Some entry))
    (fetchChannelOpenTx env channelId).
Proof.
  intros w [Hsome Hentry].
  destruct (fetchChannelOpenTx_effect env channelId w)
    as (_ & _ & [[-> _]|(Hmiss & record & -> & _)]); [done|].
  assert (channelIntegerIdToShortId env channelId ≠ k) as Hne.
  { intros <-. rewrite Hmiss in Hsome. by destruct Hsome. }
  by rewrite lookup_insert_ne.
Qed.

Lemma perform_keeps_entry env m k entry :
  ∀ w, (is_Some (fundingTxCache w !! k) ∧
        (k ≠ MY_LIGHTNING_WALLET_ADDRESS → fundingTxCache w !! k = Some entry)) →
       is_Some (fundingTxCache (perform env m w) !! k) ∧
       (k ≠ MY_LIGHTNING_WALLET_ADDRESS →
        fundingTxCache (perform env m w) !! k = Some entry).
Proof.
  set (P := λ w' : World Num RawTx AddrTxs,
              is_Some (fundingTxCache w' !! k) ∧
              (k ≠ MY_LIGHTNING_WALLET_ADDRESS →
               fundingTxCache w' !! k = Some entry)).
  intros w Hw. change (P w) in Hw. change (P (perform env m w)).
  assert (∀ w0 txs, P w0 →
            P (set_fundingTxCache
                 (<[MY_LIGHTNING_WALLET_ADDRESS := ConfirmedTxs txs]>
                    (fundingTxCache w0)) w0)) as Hwallet.
  { intros w0 txs [Hsome Hsame]. split; cbn.
    - apply lookup_insert_is_Some'. by right.
    - intros Hk. rewrite lookup_insert_ne by done. by apply Hsame. }
  destruct m; cbn [perform].
  - rewrite init_skip.
    + by apply (preserves_monitorLightningWallet P).
    + left. intros Hsize%map_size_empty_iff. destruct Hw as [[? Hin] _].
      by rewrite Hsize in Hin.
  - apply (preserves_fetchChannelsFundingTxs P); try done.
    intros channelId. apply fetchChannelOpenTx_keeps_entry.
  - by apply fetchChannelOpenTx_keeps_entry.
  - done.
Qed.

(** X18. [fundingTxCache] only grows: no sequence of calls, of whatever
    methods and with whatever collaborators, removes a key, and none changes
    the entry of a key other than the watched address.  A channel record, once
    resolved or loaded, stays as it is for the life of the object. *)
Theorem fundingTxCache_never_forgets calls w k entry :
  fundingTxCache w !! k = Some entry →
  is_Some (fundingTxCache (performAll calls w) !! k) ∧
  (k ≠ MY_LIGHTNING_WALLET_ADDRESS →
   fundingTxCache (performAll calls w) !! k = Some entry).
Proof.
  intros Hentry.
  assert (is_Some (fundingTxCache w !! k) ∧
          (k ≠ MY_LIGHTNING_WALLET_ADDRESS → fundingTxCache w !! k = Some entry))
    as Hw by (split; [by eexists|done]).
  clear Hentry. revert w Hw. unfold performAll.
  induction calls as [|[env m] calls IH]; intros w Hw; [done|].
  cbn [foldl fst snd]. by apply IH, perform_keeps_entry.
Qed.

Lemma perform_keeps_running_set env m w :
  running w = true → running (perform env m w) = true.
Proof.
  intros Hbusy. destruct m as [|channelIds|channelId|]; cbn [perform].
  - by apply (preserves_init (λ w0, running w0 = true)).
  - by rewrite fetchChannelsFundingTxs_busy_run.
  - destruct (fetchChannelOpenTx_effect env channelId w) as ((Hr & _) & _).
    congruence.
  - done.
Qed.

(** X19. Nothing but the last line of [$fetchChannelsFundingTxs] clears the
    guard.  So when a batch throws, the guard is set and stays set through
    every sequence of later calls, and every later call of
    [$fetchChannelsFundingTxs] returns at once without doing anything:
    the object resolves no further batch. *)
Theorem running_stays_set_after_throw env channelIds w e w' calls :
  running w = false →
  fetchChannelsFundingTxs env channelIds w = (Throw e, w') →
  running (performAll calls w') = true ∧
  ∀ env' channelIds',
    fetchChannelsFundingTxs env' channelIds' (performAll calls w')
    = (Ok tt, performAll calls w').
Proof.
  intros Hidle Hrun.
  pose proof (fetchChannelsFundingTxs_Throw_stuck env channelIds w e w' Hidle Hrun)
    as Hstuck.
  assert (running (performAll calls w') = true) as Hstill.
  { clear Hrun. revert w' Hstuck. unfold performAll.
    induction calls as [|[env0 m] calls IH]; intros w' Hstuck; [done|].
    cbn [foldl fst snd]. by apply IH, perform_keeps_running_set. }
  split; [done|]. intros env' channelIds'.
  by apply fetchChannelsFundingTxs_busy_run.
Qed.

(** X20. The cache file is written by [$fetchChannelsFundingTxs] only, which
    is also the only method that sets the guard and reads the clock: [$init],
    a direct call of [$fetchChannelOpenTx] and [getWalletMempoolStatus] leave
    the file, the guard and the clock as they were.  So what a direct
    resolution adds to [fundingTxCache] reaches the file only through a later
    batch. *)
Theorem cacheFile_written_by_batch_only env m w :
  (∀ channelIds, m ≠ CallFetchChannelsFundingTxs channelIds) →
  cacheFile (perform env m w) = cacheFile w ∧
  flushes (perform env m w) = flushes w ∧
  running (perform env m w) = running w ∧
  clockReads (perform env m w) = clockReads w.
Proof.
  intros Hm. destruct m as [|channelIds|channelId|]; cbn [perform].
  - by apply (preserves_init
                (λ w0, cacheFile w0 = cacheFile w ∧ flushes w0 = flushes w ∧
                       running w0 = running w ∧ clockReads w0 = clockReads w)).
  - by destruct (Hm channelIds).
  - destruct (fetchChannelOpenTx_effect env channelId w)
      as ((Hr & _ & Hf & Hfl & Hc) & _).
    done.
  - done.
Qed.

(** *** Batches *)

(** A batch that returned with a positive counter: its last write of the
    cache file is the final flush, made with the cache as the loop left it,
    and the refresh that follows touches the watched address only. *)
Lemma fetchChannelsFundingTxs_Ok_file env channelIds w w' :
  running w = false →
  fetchChannelsFundingTxs env channelIds w = (Ok tt, w') →
  0 < channelNewlyProcessed w' →
  ∃ w1,
    indexChannels env channelIds (set_running true w) = (Ok tt, w1) ∧
    cacheFile w' = Some (Json (fundingTxCache w1)) ∧
    ∀ k, k ≠ MY_LIGHTNING_WALLET_ADDRESS →
         fundingTxCache w' !! k = fundingTxCache w1 !! k.
Proof.
  intros Hidle Hrun Hnew.
  pose proof (fetchChannelsFundingTxs_run env channelIds w Hidle) as Hshape.
  destruct (indexChannels env channelIds (set_running true w)) as [[[]|e] w1];
    [|by rewrite Hshape in Hrun].
  destruct Hshape as (w2 & Hmon & Heq). rewrite Heq in Hrun.
  injection Hrun as <-. cbn in Hnew |- *.
  rewrite finalFlush_run in Hmon. cbn [snd] in Hmon.
  match type of Hmon with
  | monitorLightningWallet env ?w0 = _ =>
      destruct (monitorLightningWallet_frame env w0)
        as (_ & _ & Hn & Hf & _ & _ & Hother & _)
  end.
  rewrite Hmon in Hn, Hf, Hother. cbn [snd] in Hn, Hf, Hother.
  destruct (decide (0 < channelNewlyProcessed w1)) as [Hpos|Hzero]; [|lia].
  exists w1. split_and!; [done|by rewrite Hf|].
  intros k Hk. by rewrite Hother.
Qed.

(** X21. After a batch that returned having resolved at least one new
    record, the cache file holds the JSON text of a cache that agrees with
    [fundingTxCache] on every key other than the watched address: no channel
    record is in memory only.  (The entry under the watched address is written
    before the refresh that ends the batch, so the file may lag behind on
    it.) *)
Theorem fetchChannelsFundingTxs_file_matches_memory env channelIds w w' :
  running w = false →
  fetchChannelsFundingTxs env channelIds w = (Ok tt, w') →
  0 < channelNewlyProcessed w' →
  ∃ written,
    cacheFile w' = Some (Json written) ∧
    ∀ k, k ≠ MY_LIGHTNING_WALLET_ADDRESS →
         written !! k = fundingTxCache w' !! k.
Proof.
  intros Hidle Hrun Hnew.
  destruct (fetchChannelsFundingTxs_Ok_file env channelIds w w' Hidle Hrun Hnew)
    as (w1 & _ & Hfile & Hsame).
  exists (fundingTxCache w1). split; [done|].
  intros k Hk. symmetry. by apply Hsame.
Qed.

(** X22. Restart round trip.  After a batch that returned having resolved at
    least one new record, a new object constructed next to the cache file and
    initialised, with whatever collaborator, holds every channel record that
    the old object held: [fundingTxCache] agrees on every key other than the
    watched address. *)
Theorem restart_keeps_channel_records env env' channelIds w w' k :
  running w = false →
  fetchChannelsFundingTxs env channelIds w = (Ok tt, w') →
  0 < channelNewlyProcessed w' →
  k ≠ MY_LIGHTNING_WALLET_ADDRESS →
  fundingTxCache (snd (init env' (new_world (cacheFile w')))) !! k
  = fundingTxCache w' !! k.
Proof.
  intros Hidle Hrun Hnew Hk.
  destruct (fetchChannelsFundingTxs_Ok_file env channelIds w w' Hidle Hrun Hnew)
    as (w1 & _ & Hfile & Hsame).
  set (written := fundingTxCache w1) in *.
  rewrite Hsame by done.
  rewrite (init_load env' (new_world (cacheFile w')) written);
    [|apply map_size_empty|by rewrite Hfile].
  destruct (monitorLightningWallet_frame env'
              (set_fundingTxCache written (new_world (cacheFile w'))))
    as (_ & _ & _ & _ & _ & _ & Hother & _).
  by rewrite Hother.
Qed.

(** X23. A batch that returns has refreshed the wallet after its loop: when
    the collaborator answers every call of that refresh, the wallet snapshot
    at the end of the batch is the expected one of the mempool listing, and
    [fundingTxCache] holds the confirmed history under the watched address. *)
Theorem fetchChannelsFundingTxs_refreshes_wallet env channelIds w w'
    confirmedTxs mempoolEntries :
  running w = false →
  fetchChannelsFundingTxs env channelIds w = (Ok tt, w') →
  getAddressTxs (rpc env) MY_LIGHTNING_WALLET_ADDRESS = Ok confirmedTxs →
  getRawMempool (rpc env) true = Ok mempoolEntries →
  Forall (λ entry, is_Some (decodedOutputs env entry.1)) mempoolEntries →
  walletMempoolTxs w' = expectedSnapshot env mempoolEntries ∧
  fundingTxCache w' !! MY_LIGHTNING_WALLET_ADDRESS
  = Some (ConfirmedTxs confirmedTxs).
Proof.
  intros Hidle Hrun Haddr Hpool Hall.
  pose proof (fetchChannelsFundingTxs_run env channelIds w Hidle) as Hshape.
  destruct (indexChannels env channelIds (set_running true w)) as [[[]|e] w1];
    [|by rewrite Hshape in Hrun].
  destruct Hshape as (w2 & Hmon & Heq). rewrite Heq in Hrun.
  injection Hrun as <-.
  destruct (refreshWallet_all_decoded env (snd (finalFlush w1)) _ _
              Haddr Hpool Hall) as (wx & Hrefresh & Hsnap & Hcache & _).
  unfold monitorLightningWallet, try_catch in Hmon. rewrite Hrefresh in Hmon.
  injection Hmon as <-. cbn. split; [done|].
  rewrite Hcache. apply lookup_insert_eq.
Qed.




End FurtherProperties.


(** ** The statements on the small chain *)

Local Close Scope string_scope.
Local Open Scope nat_scope.

(** The eviction at work: putting block 100 into a cache that holds the
    heights 0 to 99 leaves the heights 10 to 100. *)
Example blocksCache_put_evicts_example :
  size (blocksAt 0 100) = 100 ∧
  blocksCache_put {| height := 100; time := 0; tx := [] |} (blocksAt 0 100)
  = blocksAt 10 91.
Proof. split; vm_compute; reflexivity. Qed.

(** A refresh at work: of the two mempool transactions only [txB] pays the
    watched address, with its second output. *)
Example monitorLightningWallet_example :
  walletMempoolTxs (snd (monitorLightningWallet (stubEnv 1) freshWorld))
  = [ {| wtx_txid := "txB"; amount := 20000%Z; wtx_fee := 20%Z; wtx_vsize := 200%Z |} ].
Proof. vm_compute. reflexivity. Qed.

Lemma reachable_freshWorld : reachable freshWorld.
Proof. apply reachable_new. Qed.

Lemma reachable_resolvedWorld : reachable resolvedWorld.
Proof. apply reachable_call, reachable_freshWorld. Qed.

Lemma reachable_indexedWorld : reachable indexedWorld.
Proof. apply reachable_call, reachable_freshWorld. Qed.

Lemma reachable_stuckWorld : reachable stuckWorld.
Proof. apply reachable_call, reachable_freshWorld. Qed.

Lemma reachable_staleWorld : reachable staleWorld.
Proof. apply reachable_call, reachable_new. Qed.

(** C1.  The code on a batch in which a resolution throws.  A batch over the
    one id [700001x0x0], whose block the collaborator refuses, run on a new
    object: [running] was clear before the call, the call throws the
    collaborator's error and [running] is set when it exits, where the claim
    has it cleared; whatever is asked of [$fetchChannelsFundingTxs] from then
    on returns at once and leaves everything as it is. *)
Lemma fetchChannelsFundingTxs_throw_leaves_guard_set :
  running freshWorld = false ∧
  fetchChannelsFundingTxs (stubEnv 1) ["700001x0x0"%string] freshWorld
  = (Throw (RpcError "Block height out of range"), stuckWorld) ∧
  running stuckWorld = true ∧
  ∀ env channelIds,
    fetchChannelsFundingTxs env channelIds stuckWorld = (Ok tt, stuckWorld).
Proof.
  assert (fst (fetchChannelsFundingTxs (stubEnv 1) ["700001x0x0"%string] freshWorld)
          = Throw (RpcError "Block height out of range"))
    as Hfst by (vm_compute; reflexivity).
  split_and!.
  - reflexivity.
  - exact (run_Throw_eq _ _ Hfst).
  - vm_compute. reflexivity.
  - intros env channelIds. apply fetchChannelsFundingTxs_busy_run.
    vm_compute. reflexivity.
Qed.

(** The guard is cleared although the refresh of the wallet monitor throws. *)
Lemma fetchChannelsFundingTxs_clears_guard_witness :
  running freshWorld = false ∧
  fst (refreshWallet walletDownEnv freshWorld)
  = Throw (RpcError "getAddressTxs is not available") ∧
  ∃ w', fetchChannelsFundingTxs walletDownEnv ["700000x1x0"%string] freshWorld
        = (Ok tt, w') ∧
        running w' = false.
Proof.
  split; [reflexivity|]. split; [vm_compute; reflexivity|].
  assert (fst (indexChannels walletDownEnv ["700000x1x0"%string]
                 (set_running true freshWorld)) = Ok tt)
    as Hloop by (vm_compute; reflexivity).
  exact (fetchChannelsFundingTxs_clears_guard walletDownEnv
           ["700000x1x0"%string] freshWorld _ eq_refl (run_Ok_eq _ _ Hloop)).
Defined.

(** The bound on a world reached by one resolution. *)
Lemma blocksCache_bounded_witness :
  reachable resolvedWorld ∧
  size (blocksCache resolvedWorld) ≤ 100 ∧
  ∀ block, size (blocksCache_put block (blocksCache resolvedWorld)) ≤ 100.
Proof.
  split; [exact reachable_resolvedWorld|].
  destruct (blocksCache_bounded_evicts_lowest resolvedWorld reachable_resolvedWorld)
    as (Hbound & _ & Hput).
  split; [exact Hbound|]. intros block. apply (Hput block).
Defined.

(** C3 as the spec words it fails.  [700000x1x0] was resolved once and is
    resolved again: its block has [txB] at index 1 and [txB] decodes to an
    output list with the value 50000 at index 0, as the claim asks; the call
    returns the record, which [fundingTxCache] already holds, but the counter
    of newly processed channels stays where it was. *)
Lemma fetchChannelOpenTx_cached_counterexample :
  reachable resolvedWorld ∧
  channelIntegerIdToShortId (stubEnv 1) "700000x1x0" = shortId 700000 1 0 ∧
  resolvedBlock (stubEnv 1) resolvedWorld 700000 = Ok stubBlock ∧
  tx stubBlock !! N.to_nat 1 = Some "txB"%string ∧
  getRawTransaction (rpc (stubEnv 1)) (Some "txB"%string) None = Ok "raw:txB"%string ∧
  decodeRawTransaction (rpc (stubEnv 1)) "raw:txB" = Ok (Some stubTxB) ∧
  (∃ outs out, vout stubTxB = Some outs ∧ outs !! N.to_nat 0 = Some out ∧
               vout_value out = Some 50000%Z) ∧
  fetchChannelOpenTx (stubEnv 1) "700000x1x0" resolvedWorld
  = (Ok (Some stubRecord), resolvedWorld) ∧
  ¬ ∃ w', fetchChannelOpenTx (stubEnv 1) "700000x1x0" resolvedWorld
          = (Ok (Some stubRecord), w') ∧
          channelNewlyProcessed w' = S (channelNewlyProcessed resolvedWorld).
Proof.
  assert (fetchChannelOpenTx (stubEnv 1) "700000x1x0" resolvedWorld
          = (Ok (Some stubRecord), resolvedWorld)) as Hrun.
  { apply fetchChannelOpenTx_hit_run. vm_compute. reflexivity. }
  split; [exact reachable_resolvedWorld|].
  do 5 (split; [vm_compute; reflexivity|]).
  split; [eexists _, _; split_and!; reflexivity|].
  split; [exact Hrun|].
  intros (w' & Hrun' & Hcount). rewrite Hrun in Hrun'.
  injection Hrun' as <-. vm_compute in Hcount. discriminate.
Qed.

(** The first resolution of [700000x1x0] on a new object. *)
Lemma fetchChannelOpenTx_resolves_witness :
  fundingTxCache freshWorld !! shortId 700000 1 0 = None ∧
  ∃ w', fetchChannelOpenTx (stubEnv 1) "700000x1x0" freshWorld
        = (Ok (Some stubRecord), w') ∧
        fundingTxCache w' = <[shortId 700000 1 0 := stubRecord]> (fundingTxCache freshWorld) ∧
        channelNewlyProcessed w' = S (channelNewlyProcessed freshWorld).
Proof.
  split; [reflexivity|].
  apply (fetchChannelOpenTx_resolves (stubEnv 1) "700000x1x0" freshWorld
           700000 1 0 stubBlock "txB" "raw:txB" stubTxB
           [ {| vout_value := Some 50000%Z; vout_addresses := Some ["bc1qother"%string] |};
             {| vout_value := Some 20000%Z;
                vout_addresses := Some [MY_LIGHTNING_WALLET_ADDRESS] |} ]
           {| vout_value := Some 50000%Z; vout_addresses := Some ["bc1qother"%string] |}
           50000%Z); reflexivity.
Defined.

(** The second resolution of [700000x1x0] is a cache hit. *)
Lemma fetchChannelOpenTx_cache_hit_witness :
  fundingTxCache resolvedWorld !! "700000x1x0"%string = Some stubRecord ∧
  fetchChannelOpenTx (stubEnv 1) "700000x1x0" resolvedWorld
  = (Ok (Some stubRecord), resolvedWorld).
Proof.
  assert (fundingTxCache resolvedWorld
            !! channelIntegerIdToShortId (stubEnv 1) "700000x1x0"
          = Some stubRecord) as Hhit by (vm_compute; reflexivity).
  split; [exact Hhit|].
  exact (fetchChannelOpenTx_cache_hit (stubEnv 1) resolvedWorld "700000x1x0"
           stubRecord Hhit).
Defined.

(** C5 as the spec words it fails.  The object was started next to a cache
    file that holds a record for [700000x1x5]; the transaction at index 1 of
    block 700000 decodes to two outputs, fewer than the six that output 5
    asks for; the call returns the record of the file, not [null]. *)
Lemma fetchChannelOpenTx_cached_not_null_counterexample :
  reachable staleWorld ∧
  channelIntegerIdToShortId (stubEnv 1) "700000x1x5" = shortId 700000 1 5 ∧
  resolvedBlock (stubEnv 1) staleWorld 700000 = Ok stubBlock ∧
  getRawTransaction (rpc (stubEnv 1)) (tx stubBlock !! N.to_nat 1) None
  = Ok "raw:txB"%string ∧
  decodeRawTransaction (rpc (stubEnv 1)) "raw:txB" = Ok (Some stubTxB) ∧
  outputMissing (Some stubTxB) 5 ∧
  fetchChannelOpenTx (stubEnv 1) "700000x1x5" staleWorld
  = (Ok (Some staleRecord), staleWorld) ∧
  fst (fetchChannelOpenTx (stubEnv 1) "700000x1x5" staleWorld) ≠ Ok None.
Proof.
  assert (fetchChannelOpenTx (stubEnv 1) "700000x1x5" staleWorld
          = (Ok (Some staleRecord), staleWorld)) as Hrun.
  { apply fetchChannelOpenTx_hit_run. vm_compute. reflexivity. }
  split; [exact reachable_staleWorld|].
  do 4 (split; [vm_compute; reflexivity|]).
  split; [left; cbn; lia|].
  split; [exact Hrun|].
  by rewrite Hrun.
Qed.

(** [700000x1x5] on a new object: the transaction has two outputs only. *)
Lemma fetchChannelOpenTx_output_missing_witness :
  fundingTxCache freshWorld !! shortId 700000 1 5 = None ∧
  outputMissing (Some stubTxB) 5 ∧
  ∃ w', fetchChannelOpenTx (stubEnv 1) "700000x1x5" freshWorld = (Ok None, w') ∧
        fundingTxCache w' = fundingTxCache freshWorld ∧
        channelNewlyProcessed w' = channelNewlyProcessed freshWorld.
Proof.
  assert (outputMissing (Some stubTxB) 5) as Hmissing.
  { left. cbn. lia. }
  split; [reflexivity|]. split; [exact Hmissing|].
  apply (fetchChannelOpenTx_output_missing (stubEnv 1) "700000x1x5" freshWorld
           700000 1 5 stubBlock "raw:txB" (Some stubTxB));
    first [reflexivity | exact Hmissing].
Defined.

(** C6 as the spec words it fails.  [700000x1x0] is in [fundingTxCache], so
    a batch over 116 copies of it is all cache hits; with a clock that moves
    by a quarter of a second between two readings a checkpoint falls due at
    the last item, and the call writes the cache file once although it
    resolved nothing. *)
Lemma fetchChannelsFundingTxs_all_hits_flush_counterexample :
  reachable indexedWorld ∧
  running indexedWorld = false ∧
  Forall (λ id, is_Some (fundingTxCache indexedWorld
                           !! channelIntegerIdToShortId (stubEnv 250) id))
    (replicate 116 "700000x1x0"%string) ∧
  fetchChannelsFundingTxs (stubEnv 250) (replicate 116 "700000x1x0"%string)
    indexedWorld
  = (Ok tt, checkpointBatchWorld) ∧
  channelNewlyProcessed checkpointBatchWorld = 0 ∧
  length (flushes indexedWorld) = 1 ∧
  length (flushes checkpointBatchWorld) = 2.
Proof.
  assert (fst (fetchChannelsFundingTxs (stubEnv 250)
                 (replicate 116 "700000x1x0"%string) indexedWorld) = Ok tt)
    as Hfst by (vm_compute; reflexivity).
  split; [exact reachable_indexedWorld|].
  split; [vm_compute; reflexivity|].
  split; [apply Forall_replicate; vm_compute; by eexists|].
  split; [exact (run_Ok_eq _ _ Hfst)|].
  split_and!; vm_compute; reflexivity.
Qed.

(** A batch of 115 cache hits under a clock that moves by a quarter of a
    second between two readings: the last reading of the loop is 60.25 seconds
    after the one that started the checkpoint timer, no checkpoint falls due
    and nothing is written. *)
Lemma fetchChannelsFundingTxs_final_flush_witness :
  running indexedWorld = false ∧
  Forall (λ id, is_Some (fundingTxCache indexedWorld
                           !! channelIntegerIdToShortId (stubEnv 250) id))
    (replicate 115 "700000x1x0"%string) ∧
  (∀ k, clock (stubEnv 250) (S k) - clock (stubEnv 250) k = 250)%Z ∧
  ∃ w', fetchChannelsFundingTxs (stubEnv 250) (replicate 115 "700000x1x0"%string)
          indexedWorld = (Ok tt, w') ∧
        flushes w' = flushes indexedWorld.
Proof.
  assert (running indexedWorld = false) as Hidle by (vm_compute; reflexivity).
  assert (Forall (λ id, is_Some (fundingTxCache indexedWorld
                                   !! channelIntegerIdToShortId (stubEnv 250) id))
            (replicate 115 "700000x1x0"%string)) as Hhits.
  { apply Forall_replicate. vm_compute. by eexists. }
  split; [exact Hidle|]. split; [exact Hhits|]. split; [intros k; cbn; lia|].
  destruct (fetchChannelsFundingTxs_final_flush (stubEnv 250)
              (replicate 115 "700000x1x0"%string) indexedWorld Hidle) as [_ Hall].
  destruct (Hall Hhits) as (w1 & w' & Hloop & Hrun & _ & _ & _ & _ & Hnone).
  exists w'. split; [exact Hrun|]. apply Hnone.
  assert (clockReads w1 = 248) as Hend.
  { replace w1 with (snd (indexChannels (stubEnv 250)
                            (replicate 115 "700000x1x0"%string)
                            (set_running true indexedWorld)))
      by (by rewrite Hloop).
    vm_compute. reflexivity. }
  assert (clockReads indexedWorld = 5) as Hstart by (vm_compute; reflexivity).
  rewrite Hend, Hstart. intros i Hlo Hhi.
  cbv [stubEnv roundedSeconds clock].
  apply Z.lt_succ_r, Z.div_lt_upper_bound; lia.
Defined.

(** A call on the object whose guard stayed set. *)
Lemma fetchChannelsFundingTxs_while_running_witness :
  running stuckWorld = true ∧
  fetchChannelsFundingTxs (stubEnv 1) ["700000x1x0"%string] stuckWorld
  = (Ok tt, stuckWorld).
Proof.
  assert (running stuckWorld = true) as Hbusy by (vm_compute; reflexivity).
  split; [exact Hbusy|].
  exact (fetchChannelsFundingTxs_while_running (stubEnv 1) stuckWorld
           ["700000x1x0"%string] Hbusy).
Defined.

(** [700000x1x5] on a new object returns [null] and leaves block 700000 in
    the block cache. *)
Lemma fetchChannelOpenTx_null_keeps_block_witness :
  fetchChannelOpenTx (stubEnv 1) "700000x1x5" freshWorld = (Ok None, missingWorld) ∧
  blocksCache missingWorld = blocksCache_put stubBlock (blocksCache freshWorld) ∧
  blocksCache missingWorld ≠ blocksCache freshWorld ∧
  fundingTxCache missingWorld = fundingTxCache freshWorld ∧
  channelNewlyProcessed missingWorld = channelNewlyProcessed freshWorld.
Proof.
  assert (fst (fetchChannelOpenTx (stubEnv 1) "700000x1x5" freshWorld) = Ok None)
    as Hfst by (vm_compute; reflexivity).
  pose proof (run_Ok_eq _ _ Hfst) as Hrun.
  split; [exact Hrun|].
  destruct (fetchChannelOpenTx_null_keeps_block (stubEnv 1) "700000x1x5"
              freshWorld missingWorld Hrun)
    as (blockHash & block & Hhash & Hblock & Hput & Hcache & Hcount & Hchanged).
  { reflexivity. }
  injection Hhash as <-. injection Hblock as <-.
  split_and!; [exact Hput| |exact Hcache|exact Hcount].
  apply Hchanged. reflexivity.
Defined.

(** C7 as the spec words it fails.  A batch over 115 ids that are all in
    [fundingTxCache], with a clock that moves by a quarter of a second between
    two readings, so that an item takes half a second or one second: 60.25
    seconds pass between the reading that starts the checkpoint timer (line
    85) and the last reading of the loop, and the cache file, written once
    before the batch, is not written during it. *)
Lemma checkpoint_not_within_60s_counterexample :
  reachable indexedWorld ∧
  running indexedWorld = false ∧
  fetchChannelsFundingTxs (stubEnv 250) (replicate 115 "700000x1x0"%string)
    indexedWorld
  = (Ok tt, quietBatchWorld) ∧
  (∀ k, clock (stubEnv 250) (S k) - clock (stubEnv 250) k = 250)%Z ∧
  (clock (stubEnv 250) (pred (clockReads quietBatchWorld))
   - clock (stubEnv 250) (S (clockReads indexedWorld)) = 60250)%Z ∧
  roundedSeconds (stubEnv 250)
    (clock (stubEnv 250) (pred (clockReads quietBatchWorld)))
    (clock (stubEnv 250) (S (clockReads indexedWorld))) = 60%Z ∧
  length (flushes indexedWorld) = 1 ∧
  length (flushes quietBatchWorld) = 1.
Proof.
  assert (fst (fetchChannelsFundingTxs (stubEnv 250)
                 (replicate 115 "700000x1x0"%string) indexedWorld) = Ok tt)
    as Hfst by (vm_compute; reflexivity).
  split; [exact reachable_indexedWorld|].
  split; [vm_compute; reflexivity|].
  split; [exact (run_Ok_eq _ _ Hfst)|].
  split; [intros k; cbn; lia|].
  split_and!; vm_compute; reflexivity.
Qed.

(** One item on a new object under a clock that moves by 61 seconds
    between two readings: the reading of line 105 is 305 seconds after the one
    that started the checkpoint timer, and the round writes the cache file
    with the record it has just resolved. *)
Lemma fetchLoop_checkpoint_when_due_witness :
  fetchLoop (stubEnv 61000) (clock (stubEnv 61000) 0) ["700000x1x0"%string]
    (clock (stubEnv 61000) 1) (clock (stubEnv 61000) 2) 0 loopStartWorld
  = (Ok tt, checkpointedWorld) ∧
  roundedSeconds (stubEnv 61000) (clock (stubEnv 61000) 6) (clock (stubEnv 61000) 1)
  = 305%Z ∧
  flushes loopStartWorld = [] ∧
  flushes checkpointedWorld = [ {[ "700000x1x0"%string := stubRecord ]} ] ∧
  cacheFile checkpointedWorld = Some (Json {[ "700000x1x0"%string := stubRecord ]}).
Proof.
  assert (fst (fetchLoop (stubEnv 61000) (clock (stubEnv 61000) 0)
                 (("700000x1x0"%string :: []) ++ [])
                 (clock (stubEnv 61000) 1) (clock (stubEnv 61000) 2) 0
                 loopStartWorld) = Ok tt) as Hfst by (vm_compute; reflexivity).
  assert (fetchLoop (stubEnv 61000) (clock (stubEnv 61000) 0)
            (("700000x1x0"%string :: []) ++ [])
            (clock (stubEnv 61000) 1) (clock (stubEnv 61000) 2) 0 loopStartWorld
          = (Ok tt, checkpointedWorld)) as Hrun by exact (run_Ok_eq _ _ Hfst).
  split; [exact Hrun|].
  split; [vm_compute; reflexivity|]. split; [reflexivity|].
  destruct (fetchLoop_checkpoint_when_due (stubEnv 61000) (clock (stubEnv 61000) 0)
              "700000x1x0" [] [] (clock (stubEnv 61000) 1)
              (clock (stubEnv 61000) 2) 0 loopStartWorld tt checkpointedWorld Hrun)
    as [(hit & wa & k & loggerTimer1 & w2 & Hfetch & Hk & _ & Hround) _].
  assert (wa = snd (fetchChannelOpenTx (stubEnv 61000) "700000x1x0" loopStartWorld))
    as Hwa by (by rewrite Hfetch).
  assert ((60 <? roundedSeconds (stubEnv 61000) (clock (stubEnv 61000) k)
                   (clock (stubEnv 61000) 1))%Z = true) as Hdue.
  { rewrite Hwa in Hk. destruct Hk as [->| ->]; vm_compute; reflexivity. }
  rewrite Hdue in Hround. destruct Hround as (Hflushes & Hfile & _ & Hrest).
  assert ((Ok tt, w2) = (Ok tt, checkpointedWorld)) as Hsame by exact Hrest.
  injection Hsame as <-.
  rewrite Hflushes, Hfile, Hwa. split; vm_compute; reflexivity.
Defined.

(** A refresh on the small chain, on an object whose snapshot holds an
    entry of an earlier refresh: the entry is gone, and [txB], whose second
    output of 20000 names the watched address, is the one entry.  With a
    listing that names a transaction which cannot be decoded, the refresh is
    abandoned and the earlier entry stays. *)
Lemma monitorLightningWallet_snapshot_witness :
  refreshAnswers (stubEnv 1)
  = Some (["txB"%string],
          [("txA"%string, {| fee := 10%Z; vsize := 140%Z |});
           ("txB"%string, {| fee := 20%Z; vsize := 200%Z |})]) ∧
  (∃ w', monitorLightningWallet (stubEnv 1) oldSnapshotWorld = (Ok tt, w') ∧
         walletMempoolTxs w'
         = [ {| wtx_txid := "txB"; amount := 20000%Z;
                wtx_fee := 20%Z; wtx_vsize := 200%Z |} ]) ∧
  refreshAnswers goneTxEnv = None ∧
  (∃ w', monitorLightningWallet goneTxEnv oldSnapshotWorld = (Ok tt, w') ∧
         walletMempoolTxs w' = walletMempoolTxs oldSnapshotWorld ∧
         fundingTxCache w' = fundingTxCache oldSnapshotWorld).
Proof.
  assert (refreshAnswers (stubEnv 1)
          = Some (["txB"%string],
                  [("txA"%string, {| fee := 10%Z; vsize := 140%Z |});
                   ("txB"%string, {| fee := 20%Z; vsize := 200%Z |})]))
    as Hanswered by (vm_compute; reflexivity).
  assert (refreshAnswers goneTxEnv = None) as Hunanswered
    by (vm_compute; reflexivity).
  split; [exact Hanswered|]. split; [|split; [exact Hunanswered|]].
  - destruct (monitorLightningWallet_snapshot (stubEnv 1) oldSnapshotWorld)
      as (w' & Hrun & Hcase).
    rewrite Hanswered in Hcase. destruct Hcase as [Hsnap _].
    exists w'. split; [exact Hrun|]. rewrite Hsnap. vm_compute. reflexivity.
  - destruct (monitorLightningWallet_snapshot goneTxEnv oldSnapshotWorld)
      as (w' & Hrun & Hcase).
    rewrite Hunanswered in Hcase. exists w'. split; [exact Hrun|]. exact Hcase.
Defined.

(** *** The further properties on the small chain *)

(** The first resolution of [700000x1x0] on a new object: the record comes
    from block 700000, transaction [txB], output 0. *)
Lemma fetchChannelOpenTx_stored_record_sound_witness :
  fundingTxCache freshWorld !! "700000x1x0"%string = None ∧
  fetchChannelOpenTx (stubEnv 1) "700000x1x0" freshWorld
  = (Ok (Some stubRecord), resolvedWorld) ∧
  ∃ b raw decoded outs O out v,
    blockFor (stubEnv 1) freshWorld "700000" = Ok b ∧
    getRawTransaction (rpc (stubEnv 1)) (Js.array_get (tx b) (Some "1"%string)) None
    = Ok raw ∧
    decodeRawTransaction (rpc (stubEnv 1)) raw = Ok (Some decoded) ∧
    vout decoded = Some outs ∧
    Some "0"%string = Some (Js.show O) ∧
    outs !! N.to_nat O = Some out ∧
    vout_value out = Some v ∧
    stubRecord = FundingTx {| timestamp := time b;
                              txid := Js.array_get (tx b) (Some "1"%string);
                              value := v |} ∧
    fundingTxCache resolvedWorld
    = <["700000x1x0"%string := stubRecord]> (fundingTxCache freshWorld).
Proof.
  assert (fst (fetchChannelOpenTx (stubEnv 1) "700000x1x0" freshWorld)
          = Ok (Some stubRecord)) as Hfst by (vm_compute; reflexivity).
  split; [reflexivity|]. split; [exact (run_Ok_eq _ _ Hfst)|].
  exact (fetchChannelOpenTx_stored_record_sound (stubEnv 1) "700000x1x0"
           freshWorld stubRecord resolvedWorld eq_refl (run_Ok_eq _ _ Hfst)).
Defined.

(** [700000x1x0] resolved on a new object, then asked again from a
    collaborator that has moved on. *)
Lemma fetchChannelOpenTx_resolved_then_cached_witness :
  fetchChannelOpenTx (stubEnv 1) "700000x1x0" freshWorld
  = (Ok (Some stubRecord), resolvedWorld) ∧
  fetchChannelOpenTx walletDownEnv "700000x1x0" resolvedWorld
  = (Ok (Some stubRecord), resolvedWorld).
Proof.
  assert (fst (fetchChannelOpenTx (stubEnv 1) "700000x1x0" freshWorld)
          = Ok (Some stubRecord)) as Hfst by (vm_compute; reflexivity).
  split; [exact (run_Ok_eq _ _ Hfst)|].
  exact (fetchChannelOpenTx_resolved_then_cached (stubEnv 1) walletDownEnv
           "700000x1x0" "700000x1x0" freshWorld stubRecord resolvedWorld
           eq_refl (run_Ok_eq _ _ Hfst)).
Defined.

(** The four calls of the first resolution on a new object, and the two of a
    resolution of another channel of the same block afterwards. *)
Lemma fetchChannelOpenTx_rpc_calls_witness :
  rpcLog (snd (fetchChannelOpenTx (stubEnv 1) "700000x1x0" freshWorld))
  = [GetBlockHash (Some 700000%Z); GetBlock "hash700000" 1;
     GetRawTransaction (Some "txB"%string) None; DecodeRawTransaction "raw:txB"%string] ∧
  rpcLog (snd (fetchChannelOpenTx (stubEnv 1) "700000x0x0" resolvedWorld))
  = rpcLog resolvedWorld
    ++ [GetRawTransaction (Some "txA"%string) None; DecodeRawTransaction "raw:txA"%string].
Proof.
  split.
  - destruct (fetchChannelOpenTx_rpc_calls (stubEnv 1) "700000x1x0" freshWorld
                stubBlock "raw:txB" (Some stubTxB)
                eq_refl eq_refl eq_refl eq_refl) as (_ & _ & Hfetched).
    destruct (Hfetched eq_refl) as (blockHash & Hhash & Hlog).
    injection Hhash as <-. exact Hlog.
  - destruct (fetchChannelOpenTx_rpc_calls (stubEnv 1) "700000x0x0" resolvedWorld
                stubBlock "raw:txA" (Some {| vout := Some [] |})
                eq_refl eq_refl eq_refl eq_refl) as (_ & Hcached & _).
    exact (Hcached eq_refl).
Defined.

(** The collaborator has no block at height 700001. *)
Lemma fetchChannelOpenTx_block_failure_witness :
  decimalId (stubEnv 1) "700001x0x0" ∧
  fundingTxCache freshWorld !! "700001x0x0"%string = None ∧
  blockFor (stubEnv 1) freshWorld "700001"
  = Throw (RpcError "Block height out of range") ∧
  ∃ w', fetchChannelOpenTx (stubEnv 1) "700001x0x0" freshWorld
        = (Throw (RpcError "Block height out of range"), w') ∧
        blocksCache w' = blocksCache freshWorld ∧
        fundingTxCache w' = fundingTxCache freshWorld ∧
        channelNewlyProcessed w' = channelNewlyProcessed freshWorld.
Proof.
  split; [reflexivity|]. split; [reflexivity|]. split; [reflexivity|].
  exact (fetchChannelOpenTx_block_failure (stubEnv 1) "700001x0x0" freshWorld
           (RpcError "Block height out of range") eq_refl eq_refl eq_refl).
Defined.

(** Block 700000 has no transaction at index 5: [getRawTransaction] is asked
    for [undefined] and throws, and the block stays cached. *)
Lemma fetchChannelOpenTx_tx_failure_keeps_block_witness :
  fundingTxCache freshWorld !! "700000x5x0"%string = None ∧
  blockFor (stubEnv 1) freshWorld "700000" = Ok stubBlock ∧
  getRawTransaction (rpc (stubEnv 1)) None None
  = Throw (RpcError "txid must be a string") ∧
  ∃ w', fetchChannelOpenTx (stubEnv 1) "700000x5x0" freshWorld
        = (Throw (RpcError "txid must be a string"), w') ∧
        blocksCache w' = blocksCache_put stubBlock (blocksCache freshWorld) ∧
        fundingTxCache w' = fundingTxCache freshWorld ∧
        channelNewlyProcessed w' = channelNewlyProcessed freshWorld.
Proof.
  split; [reflexivity|]. split; [reflexivity|]. split; [reflexivity|].
  exact (fetchChannelOpenTx_tx_failure_keeps_block (stubEnv 1) "700000x5x0"
           freshWorld stubBlock (RpcError "txid must be a string")
           eq_refl eq_refl (or_introl eq_refl)).
Defined.

(** [700000x1] names a block and a transaction but no output. *)
Lemma fetchChannelOpenTx_short_id_TypeError_witness :
  fundingTxCache freshWorld !! "700000x1"%string = None ∧
  Js.split "x" "700000x1" = ["700000"; "1"]%string ∧
  ∃ w', fetchChannelOpenTx (stubEnv 1) "700000x1" freshWorld
        = (Throw TypeError, w') ∧
        fundingTxCache w' = fundingTxCache freshWorld ∧
        channelNewlyProcessed w' = channelNewlyProcessed freshWorld.
Proof.
  split; [reflexivity|]. split; [reflexivity|].
  assert (length (Js.split "x" (channelIntegerIdToShortId (stubEnv 1) "700000x1")) < 3)
    as Hshort by (cbn; lia).
  exact (proj2 (fetchChannelOpenTx_short_id_TypeError (stubEnv 1) "700000x1"
                  freshWorld eq_refl Hshort)
           stubBlock "raw:txB" stubTxB _ eq_refl eq_refl eq_refl eq_refl).
Defined.


(** Block 700000 is fetched into a block cache that holds the heights 700001
    to 700100: it is gone when the call returns. *)
Lemma fetchChannelOpenTx_old_block_not_kept_witness :
  fundingTxCache fullCacheWorld !! "700000x1x0"%string = None ∧
  blockFor (stubEnv 1) fullCacheWorld "700000" = Ok stubBlock ∧
  size (blocksCache fullCacheWorld) = 100 ∧
  blocksCache (snd (fetchChannelOpenTx (stubEnv 1) "700000x1x0" fullCacheWorld))
    !! 700000%N = None.
Proof.
  assert (blockFor (stubEnv 1) fullCacheWorld "700000" = Ok stubBlock)
    as Hblock by (vm_compute; reflexivity).
  assert (size (blocksCache fullCacheWorld) = 100)
    as Hfull by (vm_compute; reflexivity).
  split; [reflexivity|]. split; [exact Hblock|]. split; [exact Hfull|].
  refine (fetchChannelOpenTx_old_block_not_kept (stubEnv 1) "700000x1x0"
            fullCacheWorld stubBlock eq_refl Hblock Hfull _).
  apply (bool_decide_unpack _). vm_compute. exact I.
Defined.

(** A second channel of block 700000 on the object that resolved a first. *)
Lemma fetchChannelOpenTx_cached_block_keeps_cache_witness :
  reachable resolvedWorld ∧
  decimalId (stubEnv 1) "700000x0x0" ∧
  fundingTxCache resolvedWorld !! "700000x0x0"%string = None ∧
  blocksCache_get (blocksCache resolvedWorld) "700000" = Some stubBlock ∧
  blocksCache (snd (fetchChannelOpenTx (stubEnv 1) "700000x0x0" resolvedWorld))
  = blocksCache resolvedWorld.
Proof.
  assert (blocksCache_get (blocksCache resolvedWorld) "700000" = Some stubBlock)
    as Hget by (vm_compute; reflexivity).
  split; [exact reachable_resolvedWorld|]. split; [reflexivity|].
  split; [vm_compute; reflexivity|]. split; [exact Hget|].
  exact (fetchChannelOpenTx_cached_block_keeps_cache (stubEnv 1) "700000x0x0"
           resolvedWorld stubBlock reachable_resolvedWorld eq_refl Hget).
Defined.

(** A new object next to a cache file with one record. *)
Lemma init_loads_cache_file_witness :
  size (fundingTxCache staleFileWorld) = 0 ∧
  cacheFile staleFileWorld = Some (Json {[ "700000x1x5"%string := staleRecord ]}) ∧
  "700000x1x5"%string ≠ MY_LIGHTNING_WALLET_ADDRESS ∧
  fundingTxCache staleWorld !! "700000x1x5"%string = Some staleRecord.
Proof.
  assert ("700000x1x5"%string ≠ MY_LIGHTNING_WALLET_ADDRESS) as Hk by discriminate.
  split; [reflexivity|]. split; [reflexivity|]. split; [exact Hk|].
  assert (({[ "700000x1x5"%string := staleRecord ]}
             : gmap string (CacheEntry Z (list string))) !! "700000x1x5"%string
          = Some staleRecord) as <- by (vm_compute; reflexivity).
  exact (init_loads_cache_file (stubEnv 1) staleFileWorld
           {[ "700000x1x5"%string := staleRecord ]} "700000x1x5"
           eq_refl eq_refl Hk).
Defined.

(** A new object next to a cache file that cannot be parsed. *)
Lemma init_corrupt_file_starts_empty_witness :
  size (fundingTxCache corruptFileWorld) = 0 ∧
  cacheFile corruptFileWorld = Some Corrupt ∧
  ∃ w', init (stubEnv 1) corruptFileWorld = (Ok tt, w') ∧
        (∀ k, k ≠ MY_LIGHTNING_WALLET_ADDRESS → fundingTxCache w' !! k = None) ∧
        cacheFile w' = Some Corrupt.
Proof.
  split; [reflexivity|]. split; [reflexivity|].
  exact (init_corrupt_file_starts_empty (stubEnv 1) corruptFileWorld
           eq_refl eq_refl).
Defined.

(** [$init] called after a first resolution: the record of the file for
    [700000x1x5] is not loaded. *)
Lemma init_ignores_file_when_cache_nonempty_witness :
  cacheFile lateInitWorld = Some (Json {[ "700000x1x5"%string := staleRecord ]}) ∧
  fundingTxCache lateInitWorld ≠ ∅ ∧
  fundingTxCache (snd (init (stubEnv 1) lateInitWorld)) !! "700000x1x5"%string = None.
Proof.
  assert (fundingTxCache lateInitWorld ≠ ∅) as Hne.
  { intros Hempty. apply (f_equal (λ c, c !! "700000x1x0"%string)) in Hempty.
    vm_compute in Hempty. discriminate. }
  split; [vm_compute; reflexivity|]. split; [exact Hne|].
  assert (fundingTxCache lateInitWorld !! "700000x1x5"%string = None)
    as <- by (vm_compute; reflexivity).
  refine (init_ignores_file_when_cache_nonempty (stubEnv 1) lateInitWorld
            "700000x1x5" Hne _).
  discriminate.
Defined.

(** A refresh on the small chain: two listed transactions, six calls. *)
Lemma monitorLightningWallet_goes_through_witness :
  ∃ w', monitorLightningWallet (stubEnv 1) resolvedWorld = (Ok tt, w') ∧
        walletMempoolTxs w'
        = [ {| wtx_txid := "txB"; amount := 20000%Z;
               wtx_fee := 20%Z; wtx_vsize := 200%Z |} ] ∧
        fundingTxCache w'
        = <[MY_LIGHTNING_WALLET_ADDRESS := ConfirmedTxs ["txB"%string]]>
            (fundingTxCache resolvedWorld) ∧
        length (rpcLog w') = length (rpcLog resolvedWorld) + 2 + 2 * 2.
Proof.
  refine (monitorLightningWallet_goes_through (stubEnv 1) resolvedWorld
            ["txB"%string]
            [("txA"%string, {| fee := 10%Z; vsize := 140%Z |});
             ("txB"%string, {| fee := 20%Z; vsize := 200%Z |})]
            eq_refl eq_refl _).
  repeat constructor; vm_compute; by eexists.
Defined.

(** The listing names [txGone], which cannot be decoded: the snapshot of a
    first refresh stays, and so does the history. *)
Lemma monitorLightningWallet_all_or_nothing_witness :
  decodedOutputs goneTxEnv "txGone" = None ∧
  ∃ w', monitorLightningWallet goneTxEnv indexedWorld = (Ok tt, w') ∧
        walletMempoolTxs w' = walletMempoolTxs indexedWorld ∧
        fundingTxCache w' = fundingTxCache indexedWorld.
Proof.
  split; [reflexivity|].
  refine (monitorLightningWallet_all_or_nothing goneTxEnv indexedWorld
            [("txB"%string, {| fee := 20%Z; vsize := 200%Z |});
             ("txGone"%string, {| fee := 5%Z; vsize := 110%Z |})]
            eq_refl _).
  apply Exists_cons_tl, Exists_cons_hd. reflexivity.
Defined.

(** [$init] on a new object, then the status. *)
Lemma getWalletMempoolStatus_after_init_witness :
  ∃ w', init (stubEnv 1) freshWorld = (Ok tt, w') ∧
        getWalletMempoolStatus w'
        = (Ok [ {| wtx_txid := "txB"; amount := 20000%Z;
                   wtx_fee := 20%Z; wtx_vsize := 200%Z |} ], w').
Proof.
  refine (getWalletMempoolStatus_after_init (stubEnv 1) freshWorld
            ["txB"%string]
            [("txA"%string, {| fee := 10%Z; vsize := 140%Z |});
             ("txB"%string, {| fee := 20%Z; vsize := 200%Z |})]
            eq_refl eq_refl _).
  repeat constructor; vm_compute; by eexists.
Defined.

(** The record of [700000x1x0] through an [$init], a batch that throws and
    a resolution of another channel. *)
Lemma fundingTxCache_never_forgets_witness :
  fundingTxCache resolvedWorld !! "700000x1x0"%string = Some stubRecord ∧
  fundingTxCache
    (performAll [(stubEnv 1, CallInit);
                 (walletDownEnv, CallFetchChannelsFundingTxs ["700001x0x0"%string]);
                 (stubEnv 1, CallFetchChannelOpenTx "700000x0x0")]
       resolvedWorld) !! "700000x1x0"%string = Some stubRecord.
Proof.
  assert (fundingTxCache resolvedWorld !! "700000x1x0"%string = Some stubRecord)
    as Hentry by (vm_compute; reflexivity).
  assert ("700000x1x0"%string ≠ MY_LIGHTNING_WALLET_ADDRESS) as Hk by discriminate.
  split; [exact Hentry|].
  exact (proj2 (fundingTxCache_never_forgets
                  [(stubEnv 1, CallInit);
                   (walletDownEnv, CallFetchChannelsFundingTxs ["700001x0x0"%string]);
                   (stubEnv 1, CallFetchChannelOpenTx "700000x0x0")]
                  resolvedWorld "700000x1x0" stubRecord Hentry) Hk).
Defined.

(** After the batch over [700001x0x0] threw, an [$init] and a resolution
    later, a batch over [700000x1x0] still returns at once. *)
Lemma running_stays_set_after_throw_witness :
  running freshWorld = false ∧
  fetchChannelsFundingTxs (stubEnv 1) ["700001x0x0"%string] freshWorld
  = (Throw (RpcError "Block height out of range"), stuckWorld) ∧
  let later := performAll [(stubEnv 1, CallInit);
                           (stubEnv 1, CallFetchChannelOpenTx "700000x1x5")]
                 stuckWorld in
  running later = true ∧
  fetchChannelsFundingTxs (stubEnv 1) ["700000x1x0"%string] later = (Ok tt, later).
Proof.
  assert (fst (fetchChannelsFundingTxs (stubEnv 1) ["700001x0x0"%string] freshWorld)
          = Throw (RpcError "Block height out of range"))
    as Hfst by (vm_compute; reflexivity).
  split; [reflexivity|]. split; [exact (run_Throw_eq _ _ Hfst)|].
  intros later.
  destruct (running_stays_set_after_throw (stubEnv 1) ["700001x0x0"%string]
              freshWorld (RpcError "Block height out of range") stuckWorld
              [(stubEnv 1, CallInit);
               (stubEnv 1, CallFetchChannelOpenTx "700000x1x5")]
              eq_refl (run_Throw_eq _ _ Hfst)) as [Hset Hnoop].
  split; [exact Hset|]. exact (Hnoop (stubEnv 1) ["700000x1x0"%string]).
Defined.

(** A direct resolution adds a record and writes nothing. *)
Lemma cacheFile_written_by_batch_only_witness :
  fundingTxCache resolvedWorld ≠ fundingTxCache freshWorld ∧
  cacheFile resolvedWorld = cacheFile freshWorld ∧
  flushes resolvedWorld = flushes freshWorld ∧
  running resolvedWorld = running freshWorld ∧
  clockReads resolvedWorld = clockReads freshWorld.
Proof.
  split.
  - intros Hsame. apply (f_equal (λ c, c !! "700000x1x0"%string)) in Hsame.
    vm_compute in Hsame. discriminate.
  - refine (cacheFile_written_by_batch_only (stubEnv 1)
              (CallFetchChannelOpenTx "700000x1x0") freshWorld _).
    discriminate.
Defined.

(** The batch over [700000x1x0] on a new object resolves one record and
    writes it. *)
Lemma fetchChannelsFundingTxs_file_matches_memory_witness :
  running freshWorld = false ∧
  fetchChannelsFundingTxs (stubEnv 1) ["700000x1x0"%string] freshWorld
  = (Ok tt, indexedWorld) ∧
  channelNewlyProcessed indexedWorld = 1 ∧
  ∃ written,
    cacheFile indexedWorld = Some (Json written) ∧
    ∀ k, k ≠ MY_LIGHTNING_WALLET_ADDRESS →
         written !! k = fundingTxCache indexedWorld !! k.
Proof.
  assert (fst (fetchChannelsFundingTxs (stubEnv 1) ["700000x1x0"%string] freshWorld)
          = Ok tt) as Hfst by (vm_compute; reflexivity).
  assert (channelNewlyProcessed indexedWorld = 1) as Hnew
    by (vm_compute; reflexivity).
  split; [reflexivity|]. split; [exact (run_Ok_eq _ _ Hfst)|].
  split; [exact Hnew|].
  refine (fetchChannelsFundingTxs_file_matches_memory (stubEnv 1)
            ["700000x1x0"%string] freshWorld indexedWorld eq_refl
            (run_Ok_eq _ _ Hfst) _).
  rewrite Hnew. lia.
Defined.

(** A new object next to the file that the batch wrote, initialised with a
    collaborator that cannot list the transactions of an address, has the
    record of [700000x1x0]. *)
Lemma restart_keeps_channel_records_witness :
  fetchChannelsFundingTxs (stubEnv 1) ["700000x1x0"%string] freshWorld
  = (Ok tt, indexedWorld) ∧
  fundingTxCache (snd (init walletDownEnv (new_world (cacheFile indexedWorld))))
    !! "700000x1x0"%string
  = Some stubRecord.
Proof.
  assert (fst (fetchChannelsFundingTxs (stubEnv 1) ["700000x1x0"%string] freshWorld)
          = Ok tt) as Hfst by (vm_compute; reflexivity).
  assert (channelNewlyProcessed indexedWorld = 1) as Hnew
    by (vm_compute; reflexivity).
  assert (fundingTxCache indexedWorld !! "700000x1x0"%string = Some stubRecord)
    as <- by (vm_compute; reflexivity).
  split; [exact (run_Ok_eq _ _ Hfst)|].
  refine (restart_keeps_channel_records (stubEnv 1) walletDownEnv
            ["700000x1x0"%string] freshWorld indexedWorld "700000x1x0" eq_refl
            (run_Ok_eq _ _ Hfst) _ _).
  - rewrite Hnew. lia.
  - discriminate.
Defined.


(** The batch over [700000x1x0] on a new object ends with the snapshot of the
    small chain. *)
Lemma fetchChannelsFundingTxs_refreshes_wallet_witness :
  running freshWorld = false ∧
  fetchChannelsFundingTxs (stubEnv 1) ["700000x1x0"%string] freshWorld
  = (Ok tt, indexedWorld) ∧
  walletMempoolTxs indexedWorld
  = [ {| wtx_txid := "txB"; amount := 20000%Z; wtx_fee := 20%Z; wtx_vsize := 200%Z |} ] ∧
  fundingTxCache indexedWorld !! MY_LIGHTNING_WALLET_ADDRESS
  = Some (ConfirmedTxs ["txB"%string]).
Proof.
  assert (fst (fetchChannelsFundingTxs (stubEnv 1) ["700000x1x0"%string] freshWorld)
          = Ok tt) as Hfst by (vm_compute; reflexivity).
  split; [reflexivity|]. split; [exact (run_Ok_eq _ _ Hfst)|].
  refine (fetchChannelsFundingTxs_refreshes_wallet (stubEnv 1)
            ["700000x1x0"%string] freshWorld indexedWorld ["txB"%string]
            [("txA"%string, {| fee := 10%Z; vsize := 140%Z |});
             ("txB"%string, {| fee := 20%Z; vsize := 200%Z |})]
            eq_refl (run_Ok_eq _ _ Hfst) eq_refl eq_refl _).
  repeat constructor; vm_compute; by eexists.
Defined.

(** An id that resolved to [null] is asked for again: the collaborator is
    asked again. *)
Lemma fetchChannelOpenTx_rpc_iff_miss_witness :
  decimalId (stubEnv 1) "700000x1x5" ∧
  fetchChannelOpenTx (stubEnv 1) "700000x1x5" freshWorld = (Ok None, missingWorld) ∧
  rpcLog (snd (fetchChannelOpenTx (stubEnv 1) "700000x1x5" missingWorld))
  ≠ rpcLog missingWorld.
Proof.
  assert (fst (fetchChannelOpenTx (stubEnv 1) "700000x1x5" freshWorld) = Ok None)
    as Hfst by (vm_compute; reflexivity).
  split; [reflexivity|]. split; [exact (run_Ok_eq _ _ Hfst)|].
  intros Hquiet.
  apply (fetchChannelOpenTx_rpc_iff_miss (stubEnv 1) "700000x1x5" missingWorld
           eq_refl) in Hquiet.
  destruct Hquiet as [entry Hentry]. vm_compute in Hentry. discriminate.
Defined.
